(** * mongoREST mock-data generator: [generator/create.py]

    A shallow embedding of the six entity generators and of the coordinating
    script, and the properties of the generated collections.

    The script is driven by two outside collaborators, Python's [random]
    module and the Faker library.  Both are read here from one tape of raw
    draws: every call consumes the next cell of the tape and decodes it.
    Monetary values are IEEE binary64 numbers, as in Python; they are the
    kernel's primitive floats.  Loops that the script writes as [while] take
    a fuel argument that bounds the iterations observed. *)

From Stdlib Require Import ZArith NArith List String Ascii Lia.
From Stdlib Require Import PrimFloat FloatOps SpecFloat.
From stdpp Require Import base option list gmap sets strings pretty.

Set Warnings "-inexact-float,-abstract-large-number,-clear-no-such-hyp".
Local Open Scope Z_scope.

(* ===================================================================== *)
(** ** Python floats *)
(* ===================================================================== *)

Module PyFloat.

(** [float(z)]: the binary64 number nearest to the integer [z]. *)
Definition of_Z (z : Z) : float :=
  match z with
  | Z0 => 0%float
  | Zpos _ => SF2Prim (binary_normalize prec emax z 0 false)
  | Zneg _ => SF2Prim (binary_normalize prec emax z 0 true)
  end.

(** Nearest integer to [num / den], ties to the even one ([den > 0]). *)
Definition div_half_even (num den : Z) : Z :=
  let q := num / den in
  let r := num mod den in
  if 2 * r <? den then q
  else if den <? 2 * r then q + 1
  else if Z.even q then q else q + 1.

(** [round(x, ndigits)] for [ndigits >= 0].  CPython prints the exact
    binary value of [x] with [ndigits] decimals (correctly rounded, ties
    to even) and reads the decimal string back: the result is the float
    nearest to [n / 10^ndigits], where [n] is the integer nearest to
    [x * 10^ndigits].  Infinities and NaN round to themselves. *)
Definition round (x : float) (ndigits : Z) : float :=
  match Prim2SF x with
  | S754_finite s m e =>
      let scale := 10 ^ ndigits in
      let num := Zpos m * scale in
      let n :=
        match e with
        | Zneg p => div_half_even num (Z.pow_pos 2 p)
        | _ => num * 2 ^ e
        end in
      match n, scale with
      | Zpos pn, Zpos ps =>
          SF2Prim (SFdiv prec emax (S754_finite s pn 0) (S754_finite false ps 0))
      | _, _ => if s then (-0)%float else 0%float
      end
  | _ => x
  end.

(** [sum(xs)] over floats: the accumulator starts at [0] and the items are
    added from left to right. *)
Definition sum (xs : list float) : float :=
  fold_left PrimFloat.add xs 0%float.

End PyFloat.

(* ===================================================================== *)
(** ** The random source and the generator monad *)
(* ===================================================================== *)

(** The Faker providers the script calls. *)
Inductive provider :=
| Email | Name | Word | Text | Sentence | ImageUrl | Company
| StreetAddress | City | State | Zipcode.

(** What lies outside the script: the raw draws of the pseudo-random
    generator, the text each Faker provider prints for a draw, and the
    clock reading [now] (seconds since the epoch) that Faker's relative
    dates start from. *)
Class Source := {
  tape : nat -> N;
  fake_str : provider -> N -> string;
  now : Z
}.

(** The 12-byte value of a BSON ObjectId.  The script only ever keeps
    [str(ObjectId())], its 24-digit hexadecimal print, which is never empty
    and is injective in the value. *)
Definition ObjectId := N.

(** A datetime, in seconds since the epoch.  The script stores
    [isoformat()] of it, which prints the same instant. *)
Definition datetime := Z.

(** The mutable state besides the registries: the position on the tape and
    the counter that [ObjectId()] increments on every call. *)
Record world := World { cursor : nat; next_oid : N }.

(** The Python exceptions the library calls of the script can raise. *)
Inductive exn := IndexError | ValueError.

(** The outcome of running a piece of the script: it returns a value, it
    raises, or it is still inside a [while] loop when the fuel is spent. *)
Inductive result (A : Type) :=
| Ok (a : A) (w : world)
| Raise (e : exn)
| Spin.
Arguments Ok {A} a w.
Arguments Raise {A} e.
Arguments Spin {A}.

Definition M (A : Type) : Type := world -> result A.

Definition ret {A} (a : A) : M A := fun w => Ok a w.

Definition bind {A B} (m : M A) (k : A -> M B) : M B :=
  fun w =>
    match m w with
    | Ok a w' => k a w'
    | Raise e => Raise e
    | Spin => Spin
    end.

Definition raise {A} (e : exn) : M A := fun _ => Raise e.

Definition spin {A} : M A := fun _ => Spin.

Declare Scope gen_scope.
Delimit Scope gen_scope with gen.
Notation "'let!' x ':=' m 'in' k" := (bind m (fun x => k))
  (at level 10, x pattern, m at level 100, k at level 200) : gen_scope.
Local Open Scope gen_scope.

(** [while cond: s = body(s)], observed for at most [fuel] iterations. *)
Fixpoint while {S : Type} (fuel : nat) (cond : S -> bool) (body : S -> M S)
    (s : S) : M S :=
  if cond s then
    match fuel with
    | O => spin
    | Datatypes.S fuel' => let! s' := body s in while fuel' cond body s'
    end
  else ret s.

(** [[gen(reg) for _ in range(n)]] where [gen] updates the registry [reg]
    it is given. *)
Fixpoint comprehension {A R : Type} (n : nat) (gen : R -> M (A * R)) (reg : R)
    : M (list A * R) :=
  match n with
  | O => ret ([], reg)
  | Datatypes.S n' =>
      let! (a, reg1) := gen reg in
      let! (rest, reg2) := comprehension n' gen reg1 in
      ret (a :: rest, reg2)
  end.

(** [[f(x) for x in xs]]. *)
Fixpoint for_each {A B : Type} (f : A -> M B) (xs : list A) : M (list B) :=
  match xs with
  | [] => ret []
  | x :: xs' =>
      let! y := f x in
      let! ys := for_each f xs' in
      ret (y :: ys)
  end.

Section Random.
Context {src : Source}.

(** The next raw draw. *)
Definition draw : M N :=
  fun w => Ok (tape (cursor w)) (World (Datatypes.S (cursor w)) (next_oid w)).

(** [str(ObjectId())]. *)
Definition new_object_id : M ObjectId :=
  fun w => Ok (next_oid w) (World (cursor w) (N.succ (next_oid w))).

(** [random.randint(a, b)]: an integer of [a..b]. *)
Definition randint (a b : Z) : M Z :=
  if b <? a then raise ValueError
  else let! d := draw in ret (a + Z.of_N d mod (b - a + 1)).

(** [random.choice(xs)]: the element at a drawn position. *)
Definition choice {A} (xs : list A) : M A :=
  match xs with
  | [] => raise IndexError
  | x :: _ =>
      let! d := draw in
      ret (nth (N.to_nat (d mod N.of_nat (length xs))) xs x)
  end.

(** [random.sample(population, k)]: [k] elements at distinct positions,
    in the order they are drawn. *)
Fixpoint sample {A} (population : list A) (k : nat) : M (list A) :=
  match k with
  | O => ret []
  | Datatypes.S k' =>
      match population with
      | [] => raise ValueError
      | x :: _ =>
          let! d := draw in
          let j := N.to_nat (d mod N.of_nat (length population)) in
          let! rest := sample (delete j population) k' in
          ret (nth j population x :: rest)
      end
  end.

(** [random.random()]: a multiple of [2^-53] in [[0, 1)]. *)
Definition random : M float :=
  let! d := draw in
  ret (PyFloat.of_Z (Z.of_N d mod 2 ^ 53) / PyFloat.of_Z (2 ^ 53))%float.

(** [random.uniform(a, b)] is [a + (b - a) * random()]. *)
Definition uniform (a b : float) : M float :=
  let! r := random in ret (a + (b - a) * r)%float.

(** A Faker provider of text. *)
Definition fake (p : provider) : M string :=
  let! d := draw in ret (fake_str p d).

(** [fake.words(nb=n)]. *)
Fixpoint fake_words (n : nat) : M (list string) :=
  match n with
  | O => ret []
  | Datatypes.S n' =>
      let! w := fake Word in
      let! ws := fake_words n' in
      ret (w :: ws)
  end.

(** [[fake.image_url() for _ in range(n)]]. *)
Fixpoint fake_images (n : nat) : M (list string) :=
  match n with
  | O => ret []
  | Datatypes.S n' =>
      let! u := fake ImageUrl in
      let! us := fake_images n' in
      ret (u :: us)
  end.

(** [fake.date_time_between(start_date="-<years>y", end_date="now")]:
    Faker reads [-<years>y] as [timedelta(days=365.24 * years)] before
    [now], which is 31556736 seconds for each of the one or two years the
    script asks for, and draws a timestamp between the two ends, kept here
    in whole seconds. *)
Definition date_time_between (years : Z) : M datetime :=
  randint (now - years * 31556736) now.

(** [t + timedelta(days=d)]. *)
Definition plus_days (t : datetime) (d : Z) : datetime := t + d * 86400.

End Random.

(* ===================================================================== *)
(** ** Strings *)
(* ===================================================================== *)

Module PyStr.

Definition between (lo hi c : ascii) : bool :=
  ((N_of_ascii lo <=? N_of_ascii c) && (N_of_ascii c <=? N_of_ascii hi))%N.

Definition lower_char (c : ascii) : ascii :=
  if between "A" "Z" c then ascii_of_N (N_of_ascii c + 32) else c.

Definition upper_char (c : ascii) : ascii :=
  if between "a" "z" c then ascii_of_N (N_of_ascii c - 32) else c.

Fixpoint map_chars (f : ascii -> ascii) (s : string) : string :=
  match s with
  | EmptyString => EmptyString
  | String c s' => String (f c) (map_chars f s')
  end.

Fixpoint filter_chars (keep : ascii -> bool) (s : string) : string :=
  match s with
  | EmptyString => EmptyString
  | String c s' =>
      if keep c then String c (filter_chars keep s') else filter_chars keep s'
  end.

(** [s.lower()], on ASCII text. *)
Definition lower : string -> string := map_chars lower_char.

(** [s.capitalize()]: the first character upper-cased, the rest lowered. *)
Definition capitalize (s : string) : string :=
  match s with
  | EmptyString => EmptyString
  | String c s' => String (upper_char c) (lower s')
  end.

(** [s.replace(" ", "-")]. *)
Definition spaces_to_hyphens : string -> string :=
  map_chars (fun c => if Ascii.eqb c " " then "-"%char else c).

(** The class [[a-z0-9-]] of the slug pattern. *)
Definition slug_char (c : ascii) : bool :=
  between "a" "z" c || between "0" "9" c || Ascii.eqb c "-".

(** [s[:n]]. *)
Definition prefix (n : nat) (s : string) : string := substring 0 n s.

(** [str(z)] for an integer. *)
Definition of_Z (z : Z) : string := pretty z.

(** [f"{x:.2f}"] for a finite float: the nearest multiple of [0.01] to the
    exact value of [x] (ties to even), printed with two decimals. *)
Definition format_2f (x : float) : string :=
  match Prim2SF x with
  | S754_finite s m e =>
      let n :=
        match e with
        | Zneg p => PyFloat.div_half_even (Zpos m * 100) (Z.pow_pos 2 p)
        | _ => Zpos m * 100 * 2 ^ e
        end in
      let cents := n mod 100 in
      (if s then "-" else "") +:+ pretty (n / 100) +:+ "." +:+
      (if cents <? 10 then "0" else "") +:+ pretty cents
  | S754_zero s => (if s then "-" else "") +:+ "0.00"
  | S754_infinity s => (if s then "-" else "") +:+ "inf"
  | S754_nan => "nan"
  end.

End PyStr.

(** [create_slug(name)]: lower-case, spaces to hyphens, then every character
    outside [[a-z0-9-]] removed. *)
Definition create_slug (name : string) : string :=
  let slug := PyStr.spaces_to_hyphens (PyStr.lower name) in
  PyStr.filter_chars PyStr.slug_char slug.

(* ===================================================================== *)
(** ** The records of the six collections *)
(* ===================================================================== *)

Module Address.
Record t := Build {
  fullName : string; address : string; city : string; state : string;
  zipCode : string; country : string }.
End Address.

Module User.
(** [age] and [avatar] are [None] when absent, [interests] is then the
    empty list.  [country] is kept nullable as the data model lists it. *)
Record profile_t := BuildProfile {
  age : option Z; country : option string;
  interests : list string; avatar : option string }.
Record t := Build {
  _id : ObjectId; email : string; name : string; profile : profile_t;
  status : string; lastLogin : option datetime;
  createdAt : datetime; updatedAt : datetime }.
End User.

Module Category.
Record seo_t := BuildSeo {
  metaTitle : string; metaDescription : string; keywords : list string }.
Record t := Build {
  _id : ObjectId; name : string; slug : string; description : string;
  parentId : option ObjectId; image : string; sortOrder : Z;
  featured : bool; status : string; seo : seo_t;
  createdAt : datetime; updatedAt : datetime }.
End Category.

Module Product.
Record inventory_t := BuildInventory {
  quantity : Z; reserved : Z; lowStockThreshold : Z }.
Record specifications_t := BuildSpecifications {
  weight : string; color : string; brand : string }.
Record ratings_t := BuildRatings { average : float; count : Z }.
Record t := Build {
  _id : ObjectId; sku : string; name : string; description : string;
  category : string; subcategory : option string; price : float;
  currency : string; inventory : inventory_t; images : list string;
  tags : list string; specifications : specifications_t;
  ratings : ratings_t; status : string;
  createdAt : datetime; updatedAt : datetime }.
End Product.

Module ProductCategory.
Record t := Build {
  _id : ObjectId; productId : ObjectId; categoryId : ObjectId;
  isPrimary : bool; sortOrder : Z; createdAt : datetime }.

(** [product_category["isPrimary"] = True]. *)
Definition set_primary (pc : t) : t :=
  Build (_id pc) (productId pc) (categoryId pc) true (sortOrder pc)
        (createdAt pc).
End ProductCategory.

Module Item.
Record t := Build {
  productId : ObjectId; sku : string; name : string;
  price : float; quantity : Z; subtotal : float }.
End Item.

Module Order.
Record payment_t := BuildPayment {
  method : string; pstatus : string; transactionId : string;
  amount : float }.
Record t := Build {
  _id : ObjectId; orderNumber : string; customerId : ObjectId;
  items : list Item.t;
  shippingAddress : Address.t; billingAddress : Address.t;
  payment : payment_t;
  subtotal : float; tax : float; shipping : float; discount : float;
  totalAmount : float; currency : string; status : string;
  orderDate : datetime; shippedDate : option datetime;
  deliveredDate : option datetime; notes : string;
  createdAt : datetime; updatedAt : datetime }.
End Order.

Module Review.
Record helpful_t := BuildHelpful { yes : Z; no : Z }.
Record t := Build {
  _id : ObjectId; productId : ObjectId; userId : ObjectId; rating : Z;
  title : string; content : string; verified : bool;
  helpful : helpful_t; status : string; images : list string;
  createdAt : datetime; updatedAt : datetime }.
End Review.

(* ===================================================================== *)
(** ** The generators *)
(* ===================================================================== *)

Definition countries : list string :=
  ["Vietnam"; "Thailand"; "Malaysia"; "Singapore"; "Indonesia"; "Philippines"].

Definition order_statuses : list string :=
  ["pending"; "confirmed"; "processing"; "shipped"; "delivered"; "cancelled";
   "refunded"].

Section Generators.
Context {src : Source}.

(** [random.choice([True, False])]. *)
Definition coin : M bool := choice [true; false].

Definition generate_order_number : M string :=
  let! n := randint 10000000 99999999 in
  ret ("ORD-" +:+ PyStr.of_Z n).

Definition generate_sku : M string :=
  let! n := randint 1000 9999 in
  let! c := choice ["A"; "B"; "C"] in
  ret ("SKU-" +:+ PyStr.of_Z n +:+ "-" +:+ c).

Definition generate_address : M Address.t :=
  let! fullName := fake Name in
  let! address := fake StreetAddress in
  let! city := fake City in
  let! state := fake State in
  let! zipCode := fake Zipcode in
  let! country := choice countries in
  ret (Address.Build fullName address city state zipCode country).

(** 1. users *)
Definition generate_user (fuel : nat) (email_set : gset string)
    : M (User.t * gset string) :=
  let! email := fake Email in
  let! email :=
    while fuel (fun email => bool_decide (email ∈ email_set))
          (fun _ => fake Email) email in
  let email_set := {[email]} ∪ email_set in
  let! _id := new_object_id in
  let! name := fake Name in
  let! has_age := coin in
  let! age :=
    if has_age then let! a := randint 13 80 in ret (Some a)
    else ret None in
  let! country := choice countries in
  let! has_interests := coin in
  let! interests :=
    if has_interests
    then let! nb := randint 0 5 in fake_words (Z.to_nat nb)
    else ret [] in
  let! has_avatar := coin in
  let! avatar :=
    if has_avatar then let! u := fake ImageUrl in ret (Some u)
    else ret None in
  let! status := choice ["active"; "inactive"; "suspended"] in
  let! has_login := coin in
  let! lastLogin :=
    if has_login then let! t := date_time_between 1 in ret (Some t)
    else ret None in
  let! createdAt := date_time_between 2 in
  let! updatedAt := date_time_between 2 in
  ret (User.Build _id email name
         (User.BuildProfile age (Some country) interests avatar)
         status lastLogin createdAt updatedAt,
       email_set).

(** The turn of the slug loop: [slug = f"{slug}-{random.randint(1000, 9999)}"]. *)
Definition next_slug (slug : string) : M string :=
  let! n := randint 1000 9999 in
  ret (slug +:+ "-" +:+ PyStr.of_Z n).

(** 2. categories.  The parameters [level] and [max_levels] of the script
    are not read by its body; [level] is kept for the call sites.  A
    [parent_id] that is given is a non-empty string, hence true. *)
Definition generate_category (fuel : nat) (slug_set : gset string)
    (parent_id : option ObjectId) (level : Z)
    : M (Category.t * gset string) :=
  let! w1 := fake Word in
  let! w2 := fake Word in
  let name := PyStr.capitalize w1 +:+ " " +:+ PyStr.capitalize w2 in
  let slug := create_slug name in
  let! slug :=
    while fuel (fun slug => bool_decide (slug ∈ slug_set)) next_slug slug in
  let slug_set := {[slug]} ∪ slug_set in
  let! _id := new_object_id in
  let! description := fake Text in
  let! image := fake ImageUrl in
  let! sortOrder := randint 0 100 in
  let! featured := coin in
  let! status := choice ["active"; "inactive"] in
  let! metaTitle := fake Sentence in
  let! metaDescription := fake Text in
  let! nb := randint 3 8 in
  let! keywords := fake_words (Z.to_nat nb) in
  let! createdAt := date_time_between 2 in
  let! updatedAt := date_time_between 2 in
  ret (Category.Build _id name slug description parent_id image sortOrder
         featured status
         (Category.BuildSeo (PyStr.prefix 60 metaTitle) metaDescription
            keywords)
         createdAt updatedAt,
       slug_set).

(** 3. products *)
Definition generate_product (fuel : nat) (sku_set : gset string)
    : M (Product.t * gset string) :=
  let! sku := generate_sku in
  let! sku :=
    while fuel (fun sku => bool_decide (sku ∈ sku_set))
          (fun _ => generate_sku) sku in
  let sku_set := {[sku]} ∪ sku_set in
  let! _id := new_object_id in
  let! w1 := fake Word in
  let! w2 := fake Word in
  let name :=
    PyStr.capitalize w1 +:+ " " +:+ PyStr.capitalize w2 +:+ " Product" in
  let! description := fake Text in
  let! category :=
    choice ["electronics"; "clothing"; "books"; "home"; "sports"; "beauty";
            "toys"; "automotive"] in
  let! has_sub := coin in
  let! subcategory :=
    if has_sub then let! w := fake Word in ret (Some (PyStr.capitalize w))
    else ret None in
  let! p := uniform 10 500 in
  let price := PyFloat.round p 2 in
  let! currency := choice ["USD"; "VND"; "EUR"; "GBP"] in
  let! quantity := randint 0 1000 in
  let! reserved := randint 0 50 in
  let! lowStockThreshold := randint 5 20 in
  let! n_images := randint 1 5 in
  let! images := fake_images (Z.to_nat n_images) in
  let! n_tags := randint 0 10 in
  let! tags := fake_words (Z.to_nat n_tags) in
  let! wt := uniform 0.1 10 in
  let! color := choice ["Red"; "Blue"; "Green"; "Black"; "White"] in
  let! brand := fake Company in
  let! has_rating := coin in
  let! average :=
    if has_rating then let! a := uniform 0 5 in ret (PyFloat.round a 1)
    else ret 0%float in
  let! count := randint 0 100 in
  let! status := choice ["active"; "inactive"; "discontinued"; "draft"] in
  let! createdAt := date_time_between 2 in
  let! updatedAt := date_time_between 2 in
  ret (Product.Build _id sku name description category subcategory price
         currency
         (Product.BuildInventory quantity reserved lowStockThreshold)
         images tags
         (Product.BuildSpecifications (PyStr.format_2f wt +:+ " kg") color
            brand)
         (Product.BuildRatings average count)
         status createdAt updatedAt,
       sku_set).

(** 4. product_categories *)
Definition generate_product_category (product_id category_id : ObjectId)
    : M ProductCategory.t :=
  let! _id := new_object_id in
  let! isPrimary := coin in
  let! sortOrder := randint 0 100 in
  let! createdAt := date_time_between 2 in
  ret (ProductCategory.Build _id product_id category_id isPrimary sortOrder
         createdAt).

(** 5. orders.  The default of [product.get("price", ...)] is an argument
    and so is drawn before the lookup; a generated product has a price,
    which is the one used. *)
Definition generate_order_item (product : Product.t) : M Item.t :=
  let! quantity := randint 1 5 in
  let! _default := uniform 10 500 in
  let price := Product.price product in
  ret (Item.Build (Product._id product) (Product.sku product)
         (Product.name product) price quantity
         (PyFloat.round (price * PyFloat.of_Z quantity) 2)).

Definition generate_order (fuel : nat) (customer_ids : list ObjectId)
    (products : list Product.t) (order_number_set : gset string)
    : M (Order.t * gset string) :=
  let! order_number := generate_order_number in
  let! order_number :=
    while fuel (fun n => bool_decide (n ∈ order_number_set))
          (fun _ => generate_order_number) order_number in
  let order_number_set := {[order_number]} ∪ order_number_set in
  let! num_items := randint 1 5 in
  let! selected_products :=
    sample products (Nat.min (Z.to_nat num_items) (length products)) in
  let! items := for_each generate_order_item selected_products in
  let subtotal := PyFloat.sum (map Item.subtotal items) in
  let! tax_rate := uniform 0 0.1 in
  let tax := PyFloat.round (subtotal * tax_rate) 2 in
  let! ship := uniform 0 50 in
  let shipping := PyFloat.round ship 2 in
  let! discount_rate := uniform 0 0.2 in
  let discount := PyFloat.round (subtotal * discount_rate) 2 in
  let total_amount :=
    PyFloat.round (subtotal + tax + shipping - discount) 2 in
  let! order_date := date_time_between 2 in
  let! status := choice order_statuses in
  let! _id := new_object_id in
  let! customerId := choice customer_ids in
  let! shippingAddress := generate_address in
  let! billingAddress := generate_address in
  let! method :=
    choice ["credit_card"; "debit_card"; "paypal"; "bank_transfer";
            "cash_on_delivery"] in
  let! pstatus := choice ["pending"; "completed"; "failed"; "refunded"] in
  let! txn := randint 1000 9999 in
  let! currency := choice ["USD"; "VND"; "EUR"; "GBP"] in
  let! shippedDate :=
    if bool_decide (status ∈ ["shipped"; "delivered"])
    then let! d := randint 1 5 in ret (Some (plus_days order_date d))
    else ret None in
  let! deliveredDate :=
    if bool_decide (status = "delivered")
    then let! d := randint 5 10 in ret (Some (plus_days order_date d))
    else ret None in
  let! has_notes := coin in
  let! notes :=
    if has_notes
    then let! s := fake Sentence in ret (PyStr.prefix 200 s)
    else ret "" in
  ret (Order.Build _id order_number customerId items shippingAddress
         billingAddress
         (Order.BuildPayment method pstatus ("TXN-" +:+ PyStr.of_Z txn)
            total_amount)
         subtotal tax shipping discount total_amount currency status
         order_date shippedDate deliveredDate notes order_date order_date,
       order_number_set).

(** 6. product_reviews.  [None] is the script's no-op return. *)
Definition generate_product_review (product_id user_id : ObjectId)
    (order_products : gmap ObjectId (list ObjectId))
    (product_user_pairs : gset (ObjectId * ObjectId))
    : M (option Review.t * gset (ObjectId * ObjectId)) :=
  if bool_decide ((product_id, user_id) ∈ product_user_pairs)
  then ret (None, product_user_pairs)
  else
    let product_user_pairs := {[(product_id, user_id)]} ∪ product_user_pairs in
    let verified :=
      bool_decide (product_id ∈ default [] (order_products !! user_id)) in
    let! _id := new_object_id in
    let! rating := randint 1 5 in
    let! title := fake Sentence in
    let! content := fake Text in
    let! yes := randint 0 50 in
    let! no := randint 0 20 in
    let! status := choice ["pending"; "approved"; "rejected"; "spam"] in
    let! n_images := randint 0 3 in
    let! images := fake_images (Z.to_nat n_images) in
    let! createdAt := date_time_between 2 in
    let! updatedAt := date_time_between 2 in
    ret (Some (Review.Build _id product_id user_id rating
                 (PyStr.prefix 100 title) content verified
                 (Review.BuildHelpful yes no) status images createdAt
                 updatedAt),
         product_user_pairs).

End Generators.

(* ===================================================================== *)
(** ** The coordinating script *)
(* ===================================================================== *)

(** [for x in xs: s = body(s, x)]. *)
Fixpoint for_fold {A S : Type} (body : S -> A -> M S) (xs : list A) (s : S)
    : M S :=
  match xs with
  | [] => ret s
  | x :: xs' => let! s' := body s x in for_fold body xs' s'
  end.

(** The six collections the script writes out. *)
Record dataset := Dataset {
  users : list User.t;
  categories : list Category.t;
  products : list Product.t;
  product_categories : list ProductCategory.t;
  orders : list Order.t;
  product_reviews : list Review.t }.

(** The literals of the script: how many records of each collection, how
    many root categories, and the depth of the category tree. *)
Record config := Config {
  n_users : nat;
  n_categories : Z;
  n_roots : Z;
  max_levels : Z;
  n_products : nat;
  n_orders : nat;
  n_reviews : nat }.

Definition script_config : config :=
  Config 10000 10000 100 3 10000 10000 10000.

(** [range(a, b)]. *)
Definition range (a b : Z) : list Z :=
  map (fun i => a + Z.of_nat i) (seq 0 (Z.to_nat (b - a))).

(** The purchase index: [order_products[customer_id].append(productId)],
    with the list created on the first item of a customer. *)
Definition index_item (customer_id : ObjectId)
    (order_products : gmap ObjectId (list ObjectId)) (item : Item.t)
    : gmap ObjectId (list ObjectId) :=
  let order_products :=
    if bool_decide (customer_id ∈ dom order_products) then order_products
    else <[customer_id := []]> order_products in
  alter (fun l => l ++ [Item.productId item]) customer_id order_products.

Definition index_order (order_products : gmap ObjectId (list ObjectId))
    (order : Order.t) : gmap ObjectId (list ObjectId) :=
  fold_left (index_item (Order.customerId order)) (Order.items order)
            order_products.

Definition index_orders (orders : list Order.t)
    : gmap ObjectId (list ObjectId) :=
  fold_left index_order orders ∅.

Section Script.
Context {src : Source}.

(** The sizes of the levels below the roots:
    [level_counts[level] = min(remaining // (max_levels - level),
    random.randint(50, 200))].  Python's [//] and [Z.div] both round down. *)
Definition level_count_step (cfg : config) (st : gmap Z Z * Z) (level : Z)
    : M (gmap Z Z * Z) :=
  let '(level_counts, remaining) := st in
  let! r := randint 50 200 in
  let c := Z.min (remaining / (max_levels cfg - level)) r in
  ret (<[level := c]> level_counts, remaining - c).

Definition level_counts_of (cfg : config) : M (gmap Z Z) :=
  let level_counts := {[ 0 := n_roots cfg ]} in
  let remaining := n_categories cfg - n_roots cfg in
  let! (level_counts, _) :=
    for_fold (level_count_step cfg) (range 1 (max_levels cfg))
             (level_counts, remaining) in
  ret level_counts.

(** The parents a level draws from: the root categories made so far at
    level 1, every category made so far below. *)
Definition parent_ids_at (level : Z) (categories : list Category.t)
    : list ObjectId :=
  if level =? 1
  then map Category._id
         (filter (fun cat => Category.parentId cat = None) categories)
  else map Category._id categories.

(** The loop over the levels, with its [break] on an empty parent list.
    [level_counts] holds a size for every level the loop visits, so the
    lookup never takes its default; [range(n)] of a negative [n] is
    empty. *)
Fixpoint category_levels (fuel : nat) (level_counts : gmap Z Z)
    (levels : list Z) (st : list Category.t * gset string)
    : M (list Category.t * gset string) :=
  match levels with
  | [] => ret st
  | level :: levels' =>
      let '(categories, slug_set) := st in
      let parent_ids := parent_ids_at level categories in
      match parent_ids with
      | [] => ret st
      | _ :: _ =>
          let! (level_categories, slug_set) :=
            comprehension (Z.to_nat (default 0 (level_counts !! level)))
              (fun slug_set =>
                 let! parent := choice parent_ids in
                 generate_category fuel slug_set (Some parent) level)
              slug_set in
          category_levels fuel level_counts levels'
            (categories ++ level_categories, slug_set)
      end
  end.

Definition generate_categories (fuel : nat) (cfg : config)
    : M (list Category.t) :=
  let slug_set : gset string := ∅ in
  let! level_counts := level_counts_of cfg in
  let! (categories, slug_set) :=
    comprehension (Z.to_nat (default 0 (level_counts !! 0)))
      (fun slug_set => generate_category fuel slug_set None 0) slug_set in
  let! (categories, slug_set) :=
    category_levels fuel level_counts (range 1 (max_levels cfg))
      (categories, slug_set) in
  if Z.of_nat (length categories) <? n_categories cfg then
    let! (additional, _) :=
      comprehension (Z.to_nat (n_categories cfg - Z.of_nat (length categories)))
        (fun slug_set => generate_category fuel slug_set None 0) slug_set in
    ret (categories ++ additional)
  else ret categories.

(** The state of the linking loop: the links made so far, the pairs
    already linked, and the flag [is_primary_set] of the current
    product. *)
Definition link_category (product_id : ObjectId)
    (st : list ProductCategory.t * gset (ObjectId * ObjectId) * bool)
    (category_id : ObjectId)
    : M (list ProductCategory.t * gset (ObjectId * ObjectId) * bool) :=
  let '(product_categories, pairs, is_primary_set) := st in
  if bool_decide ((product_id, category_id) ∉ pairs) then
    let! product_category :=
      generate_product_category product_id category_id in
    let pairs := {[(product_id, category_id)]} ∪ pairs in
    let! accept := if is_primary_set then ret false else coin in
    let product_category :=
      if accept then ProductCategory.set_primary product_category
      else product_category in
    ret (product_categories ++ [product_category], pairs,
         is_primary_set || accept)
  else ret st.

Definition link_product (category_ids : list ObjectId)
    (st : list ProductCategory.t * gset (ObjectId * ObjectId))
    (product_id : ObjectId)
    : M (list ProductCategory.t * gset (ObjectId * ObjectId)) :=
  let '(product_categories, pairs) := st in
  let! num_categories := randint 1 3 in
  let! selected_categories :=
    sample category_ids
      (Nat.min (Z.to_nat num_categories) (length category_ids)) in
  let! (product_categories, pairs, _) :=
    for_fold (link_category product_id) selected_categories
             (product_categories, pairs, false) in
  ret (product_categories, pairs).

Definition generate_product_categories (product_ids category_ids : list ObjectId)
    : M (list ProductCategory.t) :=
  let! (product_categories, _) :=
    for_fold (link_product category_ids) product_ids ([], ∅) in
  ret product_categories.

(** One turn of the review loop. *)
Definition review_step (user_ids product_ids : list ObjectId)
    (order_products : gmap ObjectId (list ObjectId))
    (st : list Review.t * gset (ObjectId * ObjectId))
    : M (list Review.t * gset (ObjectId * ObjectId)) :=
  let '(product_reviews, product_user_pairs) := st in
  let! user_id := choice user_ids in
  let! product_id := choice product_ids in
  let! (review, product_user_pairs) :=
    generate_product_review product_id user_id order_products
      product_user_pairs in
  match review with
  | Some r => ret (product_reviews ++ [r], product_user_pairs)
  | None => ret (product_reviews, product_user_pairs)
  end.

Definition generate_product_reviews (fuel : nat) (target : nat)
    (user_ids product_ids : list ObjectId)
    (order_products : gmap ObjectId (list ObjectId))
    : M (list Review.t) :=
  let! (product_reviews, _) :=
    while fuel (fun st => (length (fst st) <? target)%nat)
          (review_step user_ids product_ids order_products) ([], ∅) in
  ret product_reviews.

(** The whole script, for the literals [cfg]. *)
Definition run (fuel : nat) (cfg : config) : M dataset :=
  let! (users, _) :=
    comprehension (n_users cfg) (generate_user fuel) ∅ in
  let user_ids := map User._id users in
  let! categories := generate_categories fuel cfg in
  let category_ids := map Category._id categories in
  let! (products, _) :=
    comprehension (n_products cfg) (generate_product fuel) ∅ in
  let product_ids := map Product._id products in
  let! product_categories :=
    generate_product_categories product_ids category_ids in
  let! (orders, _) :=
    comprehension (n_orders cfg) (generate_order fuel user_ids products) ∅ in
  let order_products := index_orders orders in
  let! product_reviews :=
    generate_product_reviews fuel (n_reviews cfg) user_ids product_ids
      order_products in
  ret (Dataset users categories products product_categories orders
         product_reviews).

Definition main (fuel : nat) : M dataset := run fuel script_config.

End Script.

(* ===================================================================== *)
(** ** Vocabulary of the properties *)
(* ===================================================================== *)

(** The value a run returned, if it returned. *)
Definition returned {A} (r : result A) : option A :=
  match r with Ok a _ => Some a | _ => None end.

Definition is_ok {A} (r : result A) : bool :=
  match r with Ok _ _ => true | _ => false end.

(** [k] turns of a loop body. *)
Fixpoint turns {S : Type} (k : nat) (body : S -> M S) (s : S) : M S :=
  match k with
  | O => ret s
  | Datatypes.S k' => let! s' := body s in turns k' body s'
  end.

(** The candidate a retry loop holds after [k] turns: the first draw,
    redrawn [k] times. *)
Definition candidate {S : Type} (first : M S) (body : S -> M S) (k : nat)
    : M S :=
  let! s := first in turns k body s.

(** The slug [generate_category] enters its loop with: two words drawn,
    capitalized, joined and slugged. *)
Definition first_slug `{Source} : M string :=
  let! w1 := fake Word in
  let! w2 := fake Word in
  ret (create_slug (PyStr.capitalize w1 +:+ " " +:+ PyStr.capitalize w2)).

(** Every parent reference points to a strictly earlier position. *)
Definition parents_earlier (cats : list Category.t) : Prop :=
  forall i c p,
    cats !! i = Some c -> Category.parentId c = Some p ->
    exists j c', (j < i)%nat /\ cats !! j = Some c' /\ Category._id c' = p.

(** The parent relation over a list of categories. *)
Definition parent_of (cats : list Category.t) (child parent : Category.t)
    : Prop :=
  child ∈ cats /\ parent ∈ cats /\
  Category.parentId child = Some (Category._id parent).

(** The invariant of the category stage: ids below the counter and
    pairwise distinct, parents earlier, slugs distinct and registered. *)
Definition categories_ok (cats : list Category.t) (slug_set : gset string)
    (w : world) : Prop :=
  (forall c, c ∈ cats -> (Category._id c < next_oid w)%N) /\
  NoDup (Category._id <$> cats) /\
  parents_earlier cats /\
  NoDup (Category.slug <$> cats) /\
  (forall c, c ∈ cats -> Category.slug c ∈ slug_set).

Definition present {A} (o : option A) : bool :=
  match o with Some _ => true | None => false end.

Definition non_empty {A} (l : list A) : bool :=
  match l with [] => false | _ :: _ => true end.

(** The outcome of [random.choice([True, False])] when its draw is cell
    [i] of the tape. *)
Definition heads `{Source} (i : nat) : bool :=
  match coin (World i 0) with Ok b _ => b | _ => false end.

(** The result of [random.randint(0, 5)] when its draw is cell [i]. *)
Definition words_drawn `{Source} (i : nat) : nat :=
  match randint 0 5 (World i 0) with Ok nb _ => Z.to_nat nb | _ => 0%nat end.

(** The cells [generate_user] reads the coins of [interests] and of
    [avatar] from, when it reads the coin of [age] from cell [c]: after the
    coin of [age] come the age, if that coin was heads, and the country;
    after the coin of [interests] come, if it was heads, the number of
    words and the words. *)
Definition interests_cell `{Source} (c : nat) : nat :=
  (c + (if heads c then 2 else 1) + 1)%nat.

Definition avatar_cell `{Source} (c : nat) : nat :=
  let j := interests_cell c in
  (j + (if heads j then 2 + words_drawn (j + 1) else 1))%nat.

(** Steps that leave the ObjectId counter alone. *)
Class KeepsOid {A} (m : M A) : Prop :=
  keeps_oid : forall w a w', m w = Ok a w' -> next_oid w' = next_oid w.
Global Hint Mode KeepsOid + ! : typeclass_instances.

(** Steps that always return. *)
Class Returns {A} (m : M A) : Prop :=
  returns : forall w, exists a w', m w = Ok a w'.
Global Hint Mode Returns + ! : typeclass_instances.

(** Steps that are never left inside a loop. *)
Class NoSpin {A} (m : M A) : Prop :=
  no_spin : forall w, m w <> Spin.
Global Hint Mode NoSpin + ! : typeclass_instances.

(** *** Vocabulary of the further properties *)

(** The characters a slug keeps, as they are or changed: letters, digits,
    the space and the hyphen. *)
Definition name_char (c : ascii) : bool :=
  PyStr.between "a" "z" c || PyStr.between "A" "Z" c
  || PyStr.between "0" "9" c || Ascii.eqb c " " || Ascii.eqb c "-".

(** The [_id]s of every record of a dataset, collection after collection. *)
Definition all_ids (d : dataset) : list ObjectId :=
  map User._id (users d) ++ map Category._id (categories d) ++
  map Product._id (products d) ++
  map ProductCategory._id (product_categories d) ++
  map Order._id (orders d) ++ map Review._id (product_reviews d).

(** The ids of [l] are pairwise distinct and lie in [[lo, hi)]. *)
Definition window {A} (id : A -> ObjectId) (l : list A) (lo hi : N) : Prop :=
  NoDup (id <$> l) /\ (lo <= hi)%N /\
  forall x, x ∈ l -> (lo <= id x < hi)%N.

(** The pair a link record joins, and the pair a review is about. *)
Definition link_pair (pc : ProductCategory.t) : ObjectId * ObjectId :=
  (ProductCategory.productId pc, ProductCategory.categoryId pc).

Definition review_pair (r : Review.t) : ObjectId * ObjectId :=
  (Review.productId r, Review.userId r).

(** The invariant of the linking stage. *)
Definition links_ok (product_ids category_ids : list ObjectId)
    (lo : N) (pcs : list ProductCategory.t)
    (pairs : gset (ObjectId * ObjectId)) (w : world) : Prop :=
  window ProductCategory._id pcs lo (next_oid w) /\
  NoDup (link_pair <$> pcs) /\
  forall pc, pc ∈ pcs ->
    link_pair pc ∈ pairs /\
    ProductCategory.productId pc ∈ product_ids /\
    ProductCategory.categoryId pc ∈ category_ids.

(** The invariant of the review loop. *)
Definition reviews_ok (user_ids product_ids : list ObjectId) (target : nat)
    (lo : N) (revs : list Review.t) (pairs : gset (ObjectId * ObjectId))
    (w : world) : Prop :=
  window Review._id revs lo (next_oid w) /\
  NoDup (review_pair <$> revs) /\
  (length revs <= target)%nat /\
  forall r, r ∈ revs ->
    review_pair r ∈ pairs /\
    Review.productId r ∈ product_ids /\ Review.userId r ∈ user_ids /\
    1 <= Review.rating r <= 5.

(** A line item made from a product: the product's id, SKU, name and
    price, and a quantity from 1 to 5. *)
Definition item_of (p : Product.t) (it : Item.t) : Prop :=
  Item.productId it = Product._id p /\ Item.sku it = Product.sku p /\
  Item.name it = Product.name p /\ Item.price it = Product.price p /\
  1 <= Item.quantity it <= 5.

(** The number of categories the levels in [levels] are sized for. *)
Definition total_levels (counts : gmap Z Z) (levels : list Z) : nat :=
  foldr (fun level n => (Z.to_nat (default 0%Z (counts !! level)) + n)%nat)
        0%nat levels.

(** Steps that never raise. *)
Class NoRaise {A} (m : M A) : Prop :=
  no_raise : forall w e, m w <> Raise e.
Global Hint Mode NoRaise + ! : typeclass_instances.

(** The links of one product. *)
Definition links_of (product_id : ObjectId) (pcs : list ProductCategory.t)
    : list ProductCategory.t :=
  filter (fun pc => ProductCategory.productId pc = product_id) pcs.

(** The product ids of the items of the orders of one customer, in the
    order the orders and their items were generated. *)
Definition purchases_of (customer_id : ObjectId) (orders : list Order.t)
    : list ObjectId :=
  flat_map (fun o =>
              if decide (Order.customerId o = customer_id)
              then map Item.productId (Order.items o) else [])
           orders.


(* ===================================================================== *)
(** ** Concrete sources and inputs *)
(* ===================================================================== *)

Module Demo.

(** A Faker whose text spells out the draw it was made from. *)
Definition text (p : provider) (d : N) : string :=
  match p with
  | Email => "user" +:+ pretty d +:+ "@example.org"
  | Word => "word" +:+ pretty d
  | _ => "text" +:+ pretty d
  end.

(** The source whose first draws are [draws] and whose later draws are
    all [rest]. *)
Definition source_of (draws : list N) (rest : N) : Source :=
  {| tape := fun i => nth i draws rest;
     fake_str := text;
     now := 1700000000 |}.

(** A source that never repeats a draw. *)
Definition counting : Source :=
  {| tape := fun i =>
       (N.of_nat i * 6364136223846793005 + 1442695040888963407)%N;
     fake_str := text;
     now := 1700000000 |}.

(** The source that answers every draw with [0]: its Faker prints the
    same email over and over. *)
Definition stuck : Source :=
  {| tape := fun _ => 0%N; fake_str := text; now := 1700000000 |}.

Definition start : world := World 0 0.

(** A small run: 2 users, 4 categories of which 1 root, 2 products,
    2 orders, 2 reviews. *)
Definition tiny : config := Config 2 4 1 3 2 2 2.

(** A product to order. *)
Definition widget : Product.t :=
  Product.Build 7%N "SKU-1000-A" "Word Word Product" "text" "books" None
    19.99 "USD" (Product.BuildInventory 1 0 5) [] []
    (Product.BuildSpecifications "1.00 kg" "Red" "text")
    (Product.BuildRatings 0 0) "active" 0 0.

(** Draws that make [generate_user] flip its three profile coins as
    told (an even draw is heads): the email, the name, the coin of [age]
    and the age, the country, the coin of [interests] with one word, the
    coin of [avatar] and the image. *)
Definition profile_draws (has_age has_interests has_avatar : bool)
    : list N :=
  ([0; 0] ++ (if has_age then [0; 0] else [1]) ++ [0] ++
   (if has_interests then [0; 1; 0] else [1]) ++
   (if has_avatar then [0; 0] else [1]))%N.

End Demo.

(* ===================================================================== *)
(** ** Reasoning about the generator monad *)
(* ===================================================================== *)

Arguments bind : simpl never.

Lemma bind_Ok {A B} (m : M A) (k : A -> M B) w b w' :
  bind m k w = Ok b w' <-> exists a w1, m w = Ok a w1 /\ k a w1 = Ok b w'.
Proof.
  unfold bind. split.
  - destruct (m w) as [a w1| |]; [eauto | discriminate | discriminate].
  - intros (a & w1 & -> & Hk). exact Hk.
Qed.

Lemma bind_Spin {A B} (m : M A) (k : A -> M B) w :
  bind m k w = Spin <->
  m w = Spin \/ exists a w1, m w = Ok a w1 /\ k a w1 = Spin.
Proof.
  unfold bind. split.
  - destruct (m w) as [a w1| |]; [| discriminate | auto].
    intros Hk. right. exists a, w1. auto.
  - intros [-> | (a & w1 & -> & Hk)]; auto.
Qed.

Lemma bind_Raise {A B} (m : M A) (k : A -> M B) w e :
  bind m k w = Raise e <->
  m w = Raise e \/ exists a w1, m w = Ok a w1 /\ k a w1 = Raise e.
Proof.
  unfold bind. split.
  - destruct (m w) as [a w1| |]; [| intros [= ->]; left; reflexivity | discriminate].
    intros Hk. right. exists a, w1. auto.
  - intros [-> | (a & w1 & -> & Hk)]; auto.
Qed.

Lemma ret_Ok {A} (a b : A) w w' : ret a w = Ok b w' <-> a = b /\ w = w'.
Proof. unfold ret. split; [intros [= -> ->] | intros [-> ->]]; auto. Qed.

(** Takes a run [m w = Ok a w'] of a sequence of binds apart into the runs
    of its steps. *)
Ltac inv_run H :=
  repeat first
    [ match type of H with
      | bind _ _ _ = Ok _ _ =>
          let a := fresh "a" in
          let w := fresh "w" in
          let Hs := fresh "Hstep" in
          apply bind_Ok in H; destruct H as (a & w & Hs & H);
          cbv beta in H; try inv_run Hs
      | ret _ _ = Ok _ _ => apply ret_Ok in H; destruct H as [H ?]
      | raise _ _ = Ok _ _ => discriminate H
      | spin _ = Ok _ _ => discriminate H
      | (match ?p with (_, _) => _ end) _ = Ok _ _ => destruct p
      | (if ?c then _ else _) _ = Ok _ _ =>
          let E := fresh "Hc" in destruct c eqn:E
      end ].
Section Rules.
Context {src : Source}.

Lemma for_each_Forall2 {A B} (f : A -> M B) xs w ys w' :
  for_each f xs w = Ok ys w' ->
  Forall2 (fun x y => exists w1 w2, f x w1 = Ok y w2) xs ys.
Proof.
  revert w ys w'. induction xs as [|x xs IH]; intros w ys w' H; simpl in H.
  - inv_run H. subst. constructor.
  - inv_run H. subst. constructor; eauto.
Qed.

(** The invariant rule of [while]: a property kept by every turn holds
    when the loop is left, and the condition is then false. *)
Lemma while_invariant {S} (P : S -> world -> Prop) fuel cond
    (body : S -> M S) s w s' w' :
  (forall s w s' w',
      P s w -> cond s = true -> body s w = Ok s' w' -> P s' w') ->
  P s w ->
  while fuel cond body s w = Ok s' w' ->
  P s' w' /\ cond s' = false.
Proof.
  intros Hbody. revert s w.
  induction fuel as [|fuel IH]; intros s w HP H; simpl in H;
    destruct (cond s) eqn:Hc; inv_run H; subst; eauto.
Qed.

(** The invariant rule of a comprehension over a registry. *)
Lemma comprehension_invariant {A R} (P : list A -> R -> world -> Prop)
    (gen : R -> M (A * R)) n :
  (forall l reg w a reg' w',
      P l reg w -> gen reg w = Ok (a, reg') w' -> P (l ++ [a]) reg' w') ->
  forall l0 reg w l reg' w',
    P l0 reg w ->
    comprehension n gen reg w = Ok (l, reg') w' ->
    P (l0 ++ l) reg' w'.
Proof.
  intros Hgen. induction n as [|n IH]; intros l0 reg w l reg' w' HP H;
    simpl in H; inv_run H.
  - injection H as <- <-. subst. by rewrite app_nil_r.
  - injection H as <- <-. subst.
    rewrite (assoc_L (++) l0 [_] _ : l0 ++ _ :: _ = (l0 ++ [_]) ++ _).
    eapply IH; eauto.
Qed.

Lemma comprehension_length {A R} (gen : R -> M (A * R)) n reg w l reg' w' :
  comprehension n gen reg w = Ok (l, reg') w' -> length l = n.
Proof.
  revert reg w l reg' w'. induction n as [|n IH]; intros reg w l reg' w' H;
    simpl in H; inv_run H; injection H as <- <-; simpl; eauto.
Qed.

(** The invariant rule of a [for] loop. *)
Lemma for_fold_invariant {A S} (P : S -> world -> Prop)
    (body : S -> A -> M S) xs :
  (forall s x w s' w',
      P s w -> x ∈ xs -> body s x w = Ok s' w' -> P s' w') ->
  forall s w s' w',
    P s w -> for_fold body xs s w = Ok s' w' -> P s' w'.
Proof.
  induction xs as [|x xs IH]; intros Hbody s w s' w' HP H; simpl in H;
    inv_run H; subst; auto.
  eapply IH; [| |exact H].
  - intros. eapply Hbody; eauto. by constructor.
  - eapply Hbody; eauto. by constructor.
Qed.

End Rules.

(* ===================================================================== *)
(** ** The ObjectId counter *)
(* ===================================================================== *)

Section Frame.
Context {src : Source}.

Global Instance keeps_ret {A} (a : A) : KeepsOid (ret a).
Proof. intros w b w' H. inv_run H. by subst. Qed.

Global Instance keeps_raise {A} e : KeepsOid (@raise A e).
Proof. intros w b w' H. discriminate. Qed.

Global Instance keeps_bind {A B} (m : M A) (k : A -> M B) :
  KeepsOid m -> (forall a, KeepsOid (k a)) -> KeepsOid (bind m k).
Proof.
  intros Hm Hk w b w' H. apply bind_Ok in H as (a & w1 & H1 & H2).
  rewrite (Hk _ _ _ _ H2). eauto.
Qed.

Global Instance keeps_if {A} (b : bool) (m1 m2 : M A) :
  KeepsOid m1 -> KeepsOid m2 -> KeepsOid (if b then m1 else m2).
Proof. by destruct b. Qed.

Global Instance keeps_draw : KeepsOid draw.
Proof. intros w a w' [= _ <-]. reflexivity. Qed.

Global Instance keeps_randint a b : KeepsOid (randint a b).
Proof. unfold randint. apply _. Qed.

Global Instance keeps_choice {A} (xs : list A) : KeepsOid (choice xs).
Proof. unfold choice. destruct xs; apply _. Qed.

Global Instance keeps_coin : KeepsOid coin.
Proof. unfold coin. apply _. Qed.

Global Instance keeps_fake p : KeepsOid (fake p).
Proof. unfold fake. apply _. Qed.

Global Instance keeps_fake_words n : KeepsOid (fake_words n).
Proof. induction n; simpl; apply _. Qed.

Global Instance keeps_date_time_between y : KeepsOid (date_time_between y).
Proof. unfold date_time_between. apply _. Qed.

Global Instance keeps_while {S} fuel cond (body : S -> M S) s :
  (forall s, KeepsOid (body s)) -> KeepsOid (while fuel cond body s).
Proof.
  intros Hb. revert s. induction fuel as [|fuel IH]; intros s; simpl;
    destruct (cond s); try apply _.
  intros w a w' H. discriminate.
Qed.

Lemma new_object_id_Ok w a w' :
  new_object_id w = Ok a w' ->
  a = next_oid w /\ next_oid w' = N.succ (next_oid w).
Proof. intros [= <- <-]. auto. Qed.

Lemma choice_In {A} (xs : list A) w a w' :
  choice xs w = Ok a w' -> a ∈ xs.
Proof.
  unfold choice. destruct xs as [|x xs]; [discriminate|].
  intros H. inv_run H. subst. apply list_elem_of_In, nth_In.
  pose proof (N.mod_upper_bound a0 (N.of_nat (length (x :: xs)))) as Hlt.
  simpl in *. lia.
Qed.

End Frame.

(** Records what each step of a run taken apart by [inv_run] does to the
    ObjectId counter. *)
Ltac oid_facts :=
  repeat match goal with
    | H : new_object_id ?w = Ok _ ?w' |- _ =>
        apply new_object_id_Ok in H; destruct H as [? ?]
    | H : ?m ?w = Ok _ ?w' |- _ =>
        let E := fresh "Eoid" in
        assert (E : next_oid w' = next_oid w)
          by (exact (keeps_oid (m:=m) _ _ _ H));
        clear H
    end.

(* ===================================================================== *)
(** ** What each generator returns *)
(* ===================================================================== *)

Section GeneratorSpecs.
Context {src : Source}.

(** What leaves a retry loop is not in the registry. *)
Lemma retry_fresh (S : gset string) fuel body s w s' w' :
  while fuel (fun x => bool_decide (x ∈ S)) body s w = Ok s' w' -> s' ∉ S.
Proof.
  intros H.
  apply (while_invariant (fun _ _ => True)) in H as [_ H]; auto.
  by apply bool_decide_eq_false in H.
Qed.

Lemma generate_user_spec fuel S w u S' w' :
  generate_user fuel S w = Ok (u, S') w' ->
  (User.email u ∉ S) /\ S' = {[User.email u]} ∪ S /\
  exists c, User.country (User.profile u) = Some c /\ c ∈ countries.
Proof.
  unfold generate_user. intros H. inv_run H;
    injection H as <- <-; simpl;
    (split; [by eapply retry_fresh | split; [done|]]);
    eexists; (split; [done | by eapply choice_In]).
Qed.

Lemma generate_category_spec fuel S parent_id level w c S' w' :
  generate_category fuel S parent_id level w = Ok (c, S') w' ->
  (Category.slug c ∉ S) /\ S' = {[Category.slug c]} ∪ S /\
  Category.parentId c = parent_id /\
  Category._id c = next_oid w /\ next_oid w' = N.succ (next_oid w).
Proof.
  unfold generate_category. intros H. inv_run H.
  injection H as <- <-; simpl.
  split; [by eapply retry_fresh|]. do 2 (split; [done|]).
  subst. oid_facts. subst. split; congruence.
Qed.

Lemma generate_product_spec fuel S w p S' w' :
  generate_product fuel S w = Ok (p, S') w' ->
  (Product.sku p ∉ S) /\ S' = {[Product.sku p]} ∪ S.
Proof.
  unfold generate_product. intros H. inv_run H;
    injection H as <- <-; simpl; (split; [by eapply retry_fresh | done]).
Qed.

Lemma generate_order_item_spec p w it w' :
  generate_order_item p w = Ok it w' ->
  Item.productId it = Product._id p /\
  Item.subtotal it =
    PyFloat.round (Item.price it * PyFloat.of_Z (Item.quantity it)) 2.
Proof.
  unfold generate_order_item. intros H. inv_run H. subst. auto.
Qed.

Lemma generate_order_spec fuel customer_ids products S w o S' w' :
  generate_order fuel customer_ids products S w = Ok (o, S') w' ->
  (Order.orderNumber o ∉ S) /\ S' = {[Order.orderNumber o]} ∪ S /\
  Order.customerId o ∈ customer_ids.
Proof.
  unfold generate_order. intros H. inv_run H;
    injection H as <- <-; simpl;
    (split; [by eapply retry_fresh | split; [done|by eapply choice_In]]).
Qed.

Lemma generate_product_review_spec p u idx pairs w r pairs' w' :
  generate_product_review p u idx pairs w = Ok (r, pairs') w' ->
  match r with
  | None => ((p, u) ∈ pairs) /\ pairs' = pairs /\ w' = w
  | Some r =>
      ((p, u) ∉ pairs) /\ pairs' = {[(p, u)]} ∪ pairs /\
      Review.productId r = p /\ Review.userId r = u /\
      Review.verified r = bool_decide (p ∈ default [] (idx !! u))
  end.
Proof.
  unfold generate_product_review. intros H.
  destruct (bool_decide ((p, u) ∈ pairs)) eqn:Hin.
  - apply bool_decide_eq_true in Hin. inv_run H. injection H as <- <-. auto.
  - apply bool_decide_eq_false in Hin. inv_run H.
    injection H as <- <-. simpl. auto.
Qed.

End GeneratorSpecs.

Lemma map_fmap {A B} (f : A -> B) (l : list A) : map f l = f <$> l.
Proof. reflexivity. Qed.

Section Uniqueness.
Context {src : Source}.

(** A comprehension whose generator returns records with a key outside
    the registry, and adds that key to it, returns records with pairwise
    distinct keys that are all outside the registry it started from. *)
Lemma comprehension_unique {A} (key : A -> string)
    (gen : gset string -> M (A * gset string)) n S w l S' w' :
  (forall S w a S' w',
      gen S w = Ok (a, S') w' -> (key a ∉ S) /\ S' = {[key a]} ∪ S) ->
  comprehension n gen S w = Ok (l, S') w' ->
  NoDup (key <$> l) /\ (forall x, x ∈ l -> key x ∉ S) /\
  S' = list_to_set (key <$> l) ∪ S.
Proof.
  intros Hgen H.
  pose (P := fun (l : list A) (R : gset string) (_ : world) =>
               NoDup (key <$> l) /\ (forall x, x ∈ l -> key x ∉ S) /\
               R = list_to_set (key <$> l) ∪ S).
  change (P l S' w'). change l with ([] ++ l).
  eapply (comprehension_invariant P); [|  |exact H].
  - subst P. simpl. intros l1 R w1 a R' w2 (Hnd & Hout & ->) Hg.
    apply Hgen in Hg as [Hfresh ->].
    rewrite fmap_app. simpl. repeat split.
    + apply NoDup_app. repeat split; [done| |apply NoDup_singleton].
      intros k Hk ->%list_elem_of_singleton.
      apply Hfresh, elem_of_union_l, elem_of_list_to_set, Hk.
    + intros x [Hx| ->%list_elem_of_singleton]%elem_of_app; [auto|].
      set_solver.
    + rewrite list_to_set_app_L. set_solver.
  - subst P. simpl. repeat split; [constructor|set_solver|set_solver].
Qed.

End Uniqueness.

(* ===================================================================== *)
(** ** The category stage *)
(* ===================================================================== *)

Section Categories.
Context {src : Source}.

Lemma categories_ok_nil w : categories_ok [] ∅ w.
Proof.
  repeat split; try constructor; try (intros ? []%elem_of_nil).
  intros i c p H. by rewrite lookup_nil in H.
Qed.

Lemma categories_ok_frame cats S w w' :
  next_oid w' = next_oid w -> categories_ok cats S w ->
  categories_ok cats S w'.
Proof. unfold categories_ok. by intros ->. Qed.

Lemma categories_ok_snoc fuel cats S parent level w c S' w' :
  categories_ok cats S w ->
  (forall p, parent = Some p -> p ∈ Category._id <$> cats) ->
  generate_category fuel S parent level w = Ok (c, S') w' ->
  categories_ok (cats ++ [c]) S' w'.
Proof.
  intros (Hlt & Hid & Hpar & Hslug & Hreg) Hparent
    (Hfresh & -> & Hp & Hc & Hw)%generate_category_spec.
  repeat split.
  - intros x [Hx| ->%list_elem_of_singleton]%elem_of_app.
    + specialize (Hlt x Hx). lia.
    + lia.
  - rewrite fmap_app. apply NoDup_app.
    repeat split; [done| |apply NoDup_singleton].
    intros k (x & -> & Hx)%list_elem_of_fmap Hk%list_elem_of_singleton.
    specialize (Hlt x Hx). simpl in Hk. lia.
  - intros i x p Hi Hxp. apply lookup_app_Some in Hi as [Hi|[Hlen Hi]].
    + destruct (Hpar i x p Hi Hxp) as (j & c' & Hj & Hc' & Hid').
      exists j, c'. repeat split; [done| |done].
      by apply lookup_app_l_Some.
    + apply list_lookup_singleton_Some in Hi as [Hi ->].
      rewrite Hp in Hxp.
      apply Hparent, list_elem_of_fmap in Hxp as (c' & -> & Hc').
      apply list_elem_of_lookup in Hc' as [j Hj].
      exists j, c'. repeat split; [|by apply lookup_app_l_Some].
      apply lookup_lt_Some in Hj. lia.
  - rewrite fmap_app. apply NoDup_app.
    repeat split; [done| |apply NoDup_singleton].
    intros k (x & -> & Hx)%list_elem_of_fmap Hk%list_elem_of_singleton.
    apply Hfresh. simpl in Hk. rewrite <- Hk. auto.
  - intros x [Hx| ->%list_elem_of_singleton]%elem_of_app; set_solver.
Qed.

Lemma roots_ok fuel n cats S w l S' w' :
  categories_ok cats S w ->
  comprehension n (fun S => generate_category fuel S None 0) S w
    = Ok (l, S') w' ->
  categories_ok (cats ++ l) S' w'.
Proof.
  intros Hok H.
  eapply (comprehension_invariant categories_ok); [|exact Hok|exact H].
  intros l1 R w1 a R' w2 Hl Hg.
  eapply categories_ok_snoc; [exact Hl| |exact Hg]. discriminate.
Qed.

Lemma parent_ids_at_sub level cats p :
  p ∈ parent_ids_at level cats -> p ∈ Category._id <$> cats.
Proof.
  unfold parent_ids_at. rewrite !map_fmap. destruct (level =? 1); [|done].
  intros (c & -> & Hc)%list_elem_of_fmap.
  apply list_elem_of_filter in Hc as [_ Hc]. by apply list_elem_of_fmap_2.
Qed.

Lemma category_levels_ok fuel counts levels cats S w cats' S' w' :
  categories_ok cats S w ->
  category_levels fuel counts levels (cats, S) w = Ok (cats', S') w' ->
  categories_ok cats' S' w'.
Proof.
  revert cats S w. induction levels as [|level levels IH];
    intros cats S w Hok H; simpl in H.
  - inv_run H. injection H as <- <-. by subst.
  - destruct (parent_ids_at level cats) as [|p0 ps] eqn:Hps.
    + inv_run H. injection H as <- <-. by subst.
    + inv_run H. eapply IH; [|exact H].
      pose (P := fun l R w =>
              categories_ok l R w /\
              forall p, p ∈ p0 :: ps -> p ∈ Category._id <$> l).
      enough (P (cats ++ l) g w0) as [? _] by done.
      eapply (comprehension_invariant P); [| |exact Hstep].
      * intros l1 R w1 a R' w2 [Hl Hsub] Hg. inv_run Hg. split.
        -- eapply categories_ok_snoc; [| |exact Hg].
           ++ eapply categories_ok_frame; [|exact Hl].
              exact (keeps_oid _ _ _ Hstep0).
           ++ intros p [= <-]. eapply Hsub, choice_In, Hstep0.
        -- intros p Hp. rewrite fmap_app. apply elem_of_app. auto.
      * split; [done|]. intros p Hp. eapply parent_ids_at_sub.
        rewrite Hps. done.
Qed.

Lemma generate_categories_ok fuel cfg w cats w' :
  generate_categories fuel cfg w = Ok cats w' ->
  exists S, categories_ok cats S w'.
Proof.
  unfold generate_categories. intros H. inv_run H.
  - subst. eexists.
    eapply (roots_ok _ _ l0); [|exact Hstep2].
    eapply category_levels_ok; [|exact Hstep1].
    eapply (roots_ok _ _ []); [|exact Hstep0]. apply categories_ok_nil.
  - subst. eexists.
    eapply category_levels_ok; [|exact Hstep1].
    eapply (roots_ok _ _ []); [|exact Hstep0]. apply categories_ok_nil.
Qed.

End Categories.

Section Forest.

Lemma lookup_unique_id (cats : list Category.t) i j c d :
  NoDup (Category._id <$> cats) ->
  cats !! i = Some c -> cats !! j = Some d ->
  Category._id c = Category._id d -> i = j.
Proof.
  intros Hnd Hi Hj Hid.
  eapply NoDup_lookup; [exact Hnd| |].
  - rewrite list_lookup_fmap, Hi. reflexivity.
  - rewrite list_lookup_fmap, Hj. simpl. by rewrite Hid.
Qed.

(** Following parent links one or more times leads to an earlier
    position. *)
Lemma ancestors_earlier cats c d :
  NoDup (Category._id <$> cats) -> parents_earlier cats ->
  tc (parent_of cats) c d ->
  forall i, cats !! i = Some c ->
  exists j, (j < i)%nat /\ cats !! j = Some d.
Proof.
  intros Hnd Hpar Htc. induction Htc as [c d (Hc & Hd & Hp)|c e d (Hc & He & Hp) _ IH];
    intros i Hi.
  - destruct (Hpar i c _ Hi Hp) as (j & d' & Hj & Hd' & Hid).
    apply list_elem_of_lookup in Hd as [j' Hj'].
    assert (j = j') as <- by (eapply lookup_unique_id; eauto).
    exists j. split; [done|congruence].
  - destruct (Hpar i c _ Hi Hp) as (j & e' & Hj & He' & Hid).
    apply list_elem_of_lookup in He as [j' Hj'].
    assert (j = j') as <- by (eapply lookup_unique_id; eauto).
    destruct (IH j Hj') as (k & Hk & Hd). exists k. split; [lia|done].
Qed.

Lemma forest_acyclic cats c :
  NoDup (Category._id <$> cats) -> parents_earlier cats ->
  ~ tc (parent_of cats) c c.
Proof.
  intros Hnd Hpar Htc.
  assert (c ∈ cats) as [i Hi]%list_elem_of_lookup.
  { inversion Htc as [? ? (? & _)|? ? ? (? & _)]; done. }
  destruct (ancestors_earlier _ _ _ Hnd Hpar Htc i Hi) as (j & Hj & Hc).
  assert (i = j) by (eapply lookup_unique_id; eauto). lia.
Qed.

End Forest.

Section Pipeline.
Context {src : Source}.

(** The runs of the six stages of a run of the script. *)
Lemma run_stages fuel cfg w d w' :
  run fuel cfg w = Ok d w' ->
  exists S1 w1 w2 S3 w3 w4 S5 w5,
    comprehension (n_users cfg) (generate_user fuel) ∅ w
      = Ok (users d, S1) w1 /\
    generate_categories fuel cfg w1 = Ok (categories d) w2 /\
    comprehension (n_products cfg) (generate_product fuel) ∅ w2
      = Ok (products d, S3) w3 /\
    generate_product_categories (map Product._id (products d))
      (map Category._id (categories d)) w3
      = Ok (product_categories d) w4 /\
    comprehension (n_orders cfg)
      (generate_order fuel (map User._id (users d)) (products d)) ∅ w4
      = Ok (orders d, S5) w5 /\
    generate_product_reviews fuel (n_reviews cfg)
      (map User._id (users d)) (map Product._id (products d))
      (index_orders (orders d)) w5
      = Ok (product_reviews d) w'.
Proof.
  unfold run. intros H. inv_run H. subst. simpl.
  repeat eexists; eauto.
Qed.

End Pipeline.

(* ===================================================================== *)
(** ** The purchase index and the reviews *)
(* ===================================================================== *)

Section PurchaseIndex.

Lemma index_item_lookup c m it c' :
  default [] (index_item c m it !! c') =
  if decide (c = c') then default [] (m !! c) ++ [Item.productId it]
  else default [] (m !! c').
Proof.
  unfold index_item. case_bool_decide as Hdom.
  - apply elem_of_dom in Hdom as [l Hl]. destruct (decide (c = c')) as [<-|Hne].
    + by rewrite lookup_alter_eq, Hl.
    + by rewrite lookup_alter_ne.
  - apply not_elem_of_dom in Hdom. destruct (decide (c = c')) as [<-|Hne].
    + by rewrite lookup_alter_eq, lookup_insert_eq, Hdom.
    + by rewrite lookup_alter_ne, lookup_insert_ne.
Qed.

Lemma index_items_lookup c its m c' p :
  p ∈ default [] (fold_left (index_item c) its m !! c') <->
  p ∈ default [] (m !! c') \/
  (c = c' /\ exists it, it ∈ its /\ Item.productId it = p).
Proof.
  revert m. induction its as [|it its IH]; intros m; simpl.
  - split; [auto|]. intros [H|(_ & it & []%elem_of_nil & _)]. done.
  - rewrite IH, index_item_lookup. destruct (decide (c = c')) as [<-|Hne].
    + rewrite elem_of_app, list_elem_of_singleton. split.
      * intros [[H| ->]|(_ & it' & Hit & <-)]; [by left| |].
        -- right. split; [done|]. exists it. split; [by left|done].
        -- right. split; [done|]. exists it'. split; [by right|done].
      * intros [H|(_ & it' & [->|Hit]%elem_of_cons & <-)]; eauto 8.
    + split; [intros [H|[? _]]; [by left|done]|].
      intros [H|[? _]]; [by left|done].
Qed.

Lemma index_orders_from os m c p :
  p ∈ default [] (fold_left index_order os m !! c) <->
  p ∈ default [] (m !! c) \/
  exists o, o ∈ os /\ Order.customerId o = c /\
    exists it, it ∈ Order.items o /\ Item.productId it = p.
Proof.
  revert m. induction os as [|o os IH]; intros m; simpl.
  - split; [auto|]. intros [H|(o & []%elem_of_nil & _)]. done.
  - rewrite IH. unfold index_order. rewrite index_items_lookup. split.
    + intros [[H|(Hc & it & Hit & Hp)]|(o' & Ho' & Hc & Hit)]; [by left| |].
      * right. exists o. split; [by left|]. eauto.
      * right. exists o'. split; [by right|]. eauto.
    + intros [H|(o' & [->|Ho']%elem_of_cons & Hc & Hit)]; [by left;left| |].
      * left. right. eauto.
      * right. eauto.
Qed.

(** The index lists, for a customer, the products of the line items of
    that customer's orders. *)
Lemma index_orders_spec os c p :
  p ∈ default [] (index_orders os !! c) <->
  exists o, o ∈ os /\ Order.customerId o = c /\
    exists it, it ∈ Order.items o /\ Item.productId it = p.
Proof.
  unfold index_orders. rewrite index_orders_from, lookup_empty. simpl.
  split; [intros [[]%elem_of_nil|H]; exact H|auto].
Qed.

End PurchaseIndex.

Section Reviews.
Context {src : Source}.

Lemma review_step_spec uids pids idx revs pairs w revs' pairs' w' :
  review_step uids pids idx (revs, pairs) w = Ok (revs', pairs') w' ->
  revs' = revs \/
  exists r, revs' = revs ++ [r] /\
    Review.verified r =
      bool_decide (Review.productId r ∈ default [] (idx !! Review.userId r)).
Proof.
  unfold review_step. intros H. inv_run H.
  apply generate_product_review_spec in Hstep1. destruct o as [r|].
  - inv_run H. injection H as <- <-. right. exists r. split; [done|].
    destruct Hstep1 as (_ & _ & -> & -> & ->). done.
  - inv_run H. injection H as <- <-. by left.
Qed.

Lemma generate_product_reviews_verified fuel target uids pids idx w revs w' :
  generate_product_reviews fuel target uids pids idx w = Ok revs w' ->
  forall r, r ∈ revs ->
    Review.verified r =
      bool_decide (Review.productId r ∈ default [] (idx !! Review.userId r)).
Proof.
  unfold generate_product_reviews. intros H. inv_run H. subst.
  pose (P := fun (st : list Review.t * gset (ObjectId * ObjectId))
                 (_ : world) =>
    forall r, r ∈ st.1 ->
      Review.verified r =
        bool_decide (Review.productId r ∈ default [] (idx !! Review.userId r))).
  change (P (revs, g) w'). eapply proj1, (while_invariant P); [| |exact Hstep].
  - intros [revs0 pairs] w1 [revs1 pairs1] w2 Hinv _ Hs r Hr.
    apply review_step_spec in Hs as [->|(r' & -> & Hv)]; [by apply Hinv|].
    simpl in Hr. apply elem_of_app in Hr as [Hr| ->%list_elem_of_singleton];
      [by apply Hinv|done].
  - intros r []%elem_of_nil.
Qed.

End Reviews.

(* ===================================================================== *)
(** ** Steps that always return *)
(* ===================================================================== *)

Section Totality.
Context {src : Source}.

Global Instance returns_ret {A} (a : A) : Returns (ret a).
Proof. intros w. by exists a, w. Qed.

Global Instance returns_bind {A B} (m : M A) (k : A -> M B) :
  Returns m -> (forall a, Returns (k a)) -> Returns (bind m k).
Proof.
  intros Hm Hk w. destruct (Hm w) as (a & w1 & H1).
  destruct (Hk a w1) as (b & w2 & H2). exists b, w2.
  apply bind_Ok. eauto.
Qed.

Global Instance returns_if {A} (b : bool) (m1 m2 : M A) :
  Returns m1 -> Returns m2 -> Returns (if b then m1 else m2).
Proof. by destruct b. Qed.

Global Instance returns_draw : Returns draw.
Proof. intros w. unfold draw. eauto. Qed.

Global Instance returns_new_object_id : Returns new_object_id.
Proof. intros w. unfold new_object_id. eauto. Qed.

Lemma returns_randint a b : a <= b -> Returns (randint a b).
Proof.
  intros Hab. unfold randint.
  destruct (b <? a) eqn:E; [lia|]. apply _.
Qed.

Global Instance returns_choice {A} (x : A) xs : Returns (choice (x :: xs)).
Proof. unfold choice. apply _. Qed.

Global Instance returns_coin : Returns coin.
Proof. unfold coin. apply _. Qed.

Global Instance returns_random : Returns random.
Proof. unfold random. apply _. Qed.

Global Instance returns_uniform a b : Returns (uniform a b).
Proof. unfold uniform. apply _. Qed.

Global Instance returns_fake p : Returns (fake p).
Proof. unfold fake. apply _. Qed.

Global Instance returns_fake_words n : Returns (fake_words n).
Proof. induction n; simpl; apply _. Qed.

Global Instance returns_fake_images n : Returns (fake_images n).
Proof. induction n; simpl; apply _. Qed.

Lemma returns_date_time_between y :
  0 <= y -> Returns (date_time_between y).
Proof. intros Hy. apply returns_randint. lia. Qed.

End Totality.

Global Hint Extern 1 (Returns (randint _ _)) =>
  apply returns_randint; lia : typeclass_instances.
Global Hint Extern 1 (Returns (date_time_between _)) =>
  apply returns_date_time_between; lia : typeclass_instances.

Section MoreTotality.
Context {src : Source}.

Global Instance returns_generate_sku : Returns generate_sku.
Proof. unfold generate_sku. apply _. Qed.

Global Instance returns_generate_order_number :
  Returns generate_order_number.
Proof. unfold generate_order_number. apply _. Qed.

Global Instance returns_generate_address : Returns generate_address.
Proof. unfold generate_address. apply _. Qed.

Global Instance returns_generate_product_review p u idx pairs :
  Returns (generate_product_review p u idx pairs).
Proof. unfold generate_product_review. apply _. Qed.

Lemma returns_not_Spin {A} (m : M A) `{!Returns m} w : m w <> Spin.
Proof. destruct (returns (m:=m) w) as (a & w' & ->). discriminate. Qed.

Lemma returns_not_Raise {A} (m : M A) `{!Returns m} w e : m w <> Raise e.
Proof. destruct (returns (m:=m) w) as (a & w' & ->). discriminate. Qed.

End MoreTotality.

(* ===================================================================== *)
(** ** Loops that are still running *)
(* ===================================================================== *)

Section Spinning.
Context {src : Source}.

Global Instance no_spin_returns {A} (m : M A) : Returns m -> NoSpin m | 10.
Proof. intros Hm w. destruct (Hm w) as (a & w' & ->). discriminate. Qed.

Global Instance no_spin_raise {A} e : NoSpin (@raise A e).
Proof. intros w. discriminate. Qed.

Global Instance no_spin_bind {A B} (m : M A) (k : A -> M B) :
  NoSpin m -> (forall a, NoSpin (k a)) -> NoSpin (bind m k) | 5.
Proof.
  intros Hm Hk w [H|(a & w1 & _ & H)]%bind_Spin; [by apply Hm in H|].
  by apply Hk in H.
Qed.

Global Instance no_spin_if {A} (b : bool) (m1 m2 : M A) :
  NoSpin m1 -> NoSpin m2 -> NoSpin (if b then m1 else m2) | 5.
Proof. by destruct b. Qed.

Global Instance no_spin_choice {A} (xs : list A) : NoSpin (choice xs).
Proof. destruct xs; apply _. Qed.

Global Instance no_spin_sample {A} (xs : list A) k : NoSpin (sample xs k).
Proof.
  revert xs. induction k as [|k IH]; intros xs; simpl; [apply _|].
  destruct xs; apply _.
Qed.

Global Instance no_spin_for_each {A B} (f : A -> M B) xs :
  (forall x, NoSpin (f x)) -> NoSpin (for_each f xs).
Proof. intros Hf. induction xs; simpl; apply _. Qed.

Global Instance returns_generate_order_item p :
  Returns (generate_order_item p).
Proof. unfold generate_order_item. apply _. Qed.

Global Instance no_spin_review_step uids pids idx st :
  NoSpin (review_step uids pids idx st).
Proof. unfold review_step. destruct st. apply no_spin_bind; [apply _|].
  intros u. apply no_spin_bind; [apply _|]. intros p.
  apply no_spin_bind; [apply _|]. intros [[r|] pairs]; apply _.
Qed.

(** A loop is still running when its fuel is spent exactly when its
    condition held after each of the turns the fuel allowed. *)
Lemma while_Spin_iff {S} fuel cond (body : S -> M S) s w :
  (forall s, NoSpin (body s)) ->
  while fuel cond body s w = Spin <->
  forall k, (k <= fuel)%nat ->
    exists s' w', turns k body s w = Ok s' w' /\ cond s' = true.
Proof.
  intros Hbody. revert s w. induction fuel as [|fuel IH]; intros s w; simpl.
  - destruct (cond s) eqn:Hc; split.
    + intros _ k Hk. assert (k = 0)%nat as -> by lia. by exists s, w.
    + done.
    + discriminate.
    + intros H. destruct (H 0%nat) as (s' & w' & [= <- <-] & Hs); [lia|].
      congruence.
  - destruct (cond s) eqn:Hc; split.
    + intros [H|(s1 & w1 & Hb & H)]%bind_Spin; [by apply Hbody in H|].
      intros [|k] Hk; [by exists s, w|]. simpl.
      destruct (proj1 (IH s1 w1) H k) as (s' & w' & Ht & Hs); [lia|].
      exists s', w'. split; [|done]. apply bind_Ok. eauto.
    + intros H. apply bind_Spin.
      destruct (H 1%nat) as (s' & w' & Ht & _); [lia|]. simpl in Ht.
      apply bind_Ok in Ht as (s1 & w1 & Hb & _). right. exists s1, w1.
      split; [done|]. apply IH. intros k Hk.
      destruct (H (Datatypes.S k)) as (s2 & w2 & Ht & Hs); [lia|].
      simpl in Ht. apply bind_Ok in Ht as (s1' & w1' & Hb' & Ht).
      rewrite Hb in Hb'. injection Hb' as <- <-. eauto.
    + discriminate.
    + intros H. destruct (H 0%nat) as (s' & w' & [= <- <-] & Hs); [lia|].
      congruence.
Qed.

(** A generator that draws a first candidate, redraws while it is in the
    registry, and then builds its record without looping. *)
Lemma retry_Spin_iff {B} (S : gset string) fuel (first : M string) body
    (rest : string -> M B) w :
  Returns first -> (forall s, NoSpin (body s)) ->
  (forall s, NoSpin (rest s)) ->
  bind first
    (fun s0 => bind (while fuel (fun x => bool_decide (x ∈ S)) body s0) rest)
    w = Spin <->
  forall k, (k <= fuel)%nat ->
    exists c w', candidate first body k w = Ok c w' /\ c ∈ S.
Proof.
  intros Hfirst Hbody Hrest. destruct (Hfirst w) as (s0 & w0 & H0).
  unfold candidate. rewrite bind_Spin, H0. split.
  - intros [|(s1 & w1 & [= <- <-] & H)]; [done|].
    apply bind_Spin in H as [H|(c & w' & _ & H)]; [|by apply Hrest in H].
    intros k Hk. destruct (proj1 (while_Spin_iff _ _ _ _ _ Hbody) H k Hk)
      as (c & w' & Ht & Hc%bool_decide_eq_true).
    exists c, w'. split; [|done]. apply bind_Ok. eauto.
  - intros H. right. exists s0, w0. split; [done|]. apply bind_Spin. left.
    apply while_Spin_iff; [done|]. intros k Hk.
    destruct (H k Hk) as (c & w' & Ht & Hc). exists c, w'.
    split; [|by apply bool_decide_eq_true].
    apply bind_Ok in Ht as (s1 & w1 & H1 & Ht). rewrite H0 in H1.
    by injection H1 as <- <-.
Qed.

End Spinning.

Global Hint Extern 1 (NoSpin (randint _ _)) =>
  apply no_spin_returns, returns_randint; lia : typeclass_instances.

(* ===================================================================== *)
(** ** Reading a concrete run *)
(* ===================================================================== *)

Lemma is_ok_Ok {A} (r : result A) :
  is_ok r = true -> exists a w, r = Ok a w.
Proof. destruct r; [eauto|discriminate|discriminate]. Qed.

Lemma returned_fst {A B} (r : result (A * B)) a :
  fst <$> returned r = Some a -> exists b w, r = Ok (a, b) w.
Proof.
  destruct r as [[a' b] w| |]; simpl; [|discriminate|discriminate].
  intros [= <-]. eauto.
Qed.

Lemma head_elem_of {A} (l : list A) x : head l = Some x -> x ∈ l.
Proof. destruct l; [discriminate|]. intros [= ->]. by left. Qed.

(** The item of the specification's scenario: a price of 19.99 ordered
    three times. *)
Example item_subtotal_example :
  PyFloat.round (19.99 * PyFloat.of_Z 3) 2 = 59.97%float.
Proof. vm_compute. reflexivity. Qed.

(* ===================================================================== *)
(** ** Orders: money fields *)
(* ===================================================================== *)

Section OrderClaims.
Context {src : Source}.

Lemma order_items_spec ps w its w' :
  for_each generate_order_item ps w = Ok its w' ->
  Forall (fun it =>
            Item.subtotal it =
              PyFloat.round (Item.price it * PyFloat.of_Z (Item.quantity it)) 2)
         its.
Proof.
  intros H%for_each_Forall2.
  induction H as [|p it ps its (w1 & w2 & Hit) _ IH]; constructor; [|done].
  by apply generate_order_item_spec in Hit as [_ Hit].
Qed.

(** C1. In every order that [generate_order] returns, [subtotal] is the
    sum of the [subtotal] fields of its items, the [subtotal] of each item
    is [round(price * quantity, 2)], and [totalAmount] is
    [round(subtotal + tax + shipping - discount, 2)]. *)
Theorem order_totals fuel customer_ids products S w o S' w' :
  generate_order fuel customer_ids products S w = Ok (o, S') w' ->
  Order.subtotal o = PyFloat.sum (map Item.subtotal (Order.items o)) /\
  Forall (fun it =>
            Item.subtotal it =
              PyFloat.round (Item.price it * PyFloat.of_Z (Item.quantity it)) 2)
         (Order.items o) /\
  Order.totalAmount o =
    PyFloat.round (Order.subtotal o + Order.tax o + Order.shipping o
                   - Order.discount o) 2.
Proof.
  unfold generate_order. intros H. inv_run H;
    injection H as <- <-; simpl; (split; [done|split; [|done]]);
    by eapply order_items_spec.
Qed.

(** C9. In every order that [generate_order] returns, [payment.amount]
    is the order's [totalAmount]. *)
Theorem payment_amount_is_total fuel customer_ids products S w o S' w' :
  generate_order fuel customer_ids products S w = Ok (o, S') w' ->
  Order.amount (Order.payment o) = Order.totalAmount o.
Proof.
  unfold generate_order. intros H. inv_run H; injection H as <- <-; done.
Qed.

End OrderClaims.

Lemma order_totals_witness :
  exists o S' w',
    @generate_order Demo.counting 0 [5%N] [Demo.widget] ∅ Demo.start
      = Ok (o, S') w' /\
    Order.subtotal o = PyFloat.sum (map Item.subtotal (Order.items o)) /\
    Forall (fun it =>
              Item.subtotal it =
                PyFloat.round (Item.price it * PyFloat.of_Z (Item.quantity it)) 2)
           (Order.items o) /\
    Order.totalAmount o =
      PyFloat.round (Order.subtotal o + Order.tax o + Order.shipping o
                     - Order.discount o) 2.
Proof.
  assert (is_ok (@generate_order Demo.counting 0 [5%N] [Demo.widget] ∅
                   Demo.start) = true) as ([o S'] & w' & E)%is_ok_Ok
    by (vm_compute; reflexivity).
  exists o, S', w'. split; [exact E|].
  exact (order_totals _ _ _ _ _ _ _ _ E).
Defined.

Lemma payment_amount_is_total_witness :
  exists o S' w',
    @generate_order Demo.counting 0 [5%N] [Demo.widget] ∅ Demo.start
      = Ok (o, S') w' /\
    Order.amount (Order.payment o) = Order.totalAmount o.
Proof.
  assert (is_ok (@generate_order Demo.counting 0 [5%N] [Demo.widget] ∅
                   Demo.start) = true) as ([o S'] & w' & E)%is_ok_Ok
    by (vm_compute; reflexivity).
  exists o, S', w'. split; [exact E|].
  exact (payment_amount_is_total _ _ _ _ _ _ _ _ E).
Defined.

(** C6, the failing input: a delivered order whose two day offsets are both
    drawn as 5.  It is delivered at the instant it is shipped, not after. *)
Theorem delivered_at_the_instant_shipped :
  exists o S' w',
    @generate_order (Demo.source_of [] 144) 0 [5%N] [Demo.widget] ∅ Demo.start
      = Ok (o, S') w' /\
    Order.status o = "delivered" /\
    Order.shippedDate o = Some (plus_days (Order.orderDate o) 5) /\
    Order.deliveredDate o = Order.shippedDate o.
Proof.
  eassert (fst <$> returned (@generate_order (Demo.source_of [] 144) 0 [5%N]
             [Demo.widget] ∅ Demo.start) = Some _) as (S' & w' & H)%returned_fst
    by (vm_compute; reflexivity).
  eexists _, S', w'. split; [exact H|]. repeat split.
Qed.

(* ===================================================================== *)
(** ** Reviews *)
(* ===================================================================== *)

Section ReviewClaims.
Context {src : Source}.

(** C10. Called with a pair that is in the dedupe registry,
    [generate_product_review] returns [None] and the registry as it was;
    called with a fresh pair it returns a record of that pair and the
    registry with exactly that pair added. *)
Theorem review_dedupe (p u : ObjectId)
    (idx : gmap ObjectId (list ObjectId))
    (pairs : gset (ObjectId * ObjectId)) (w : world) :
  ((p, u) ∈ pairs ->
     generate_product_review p u idx pairs w = Ok (None, pairs) w) /\
  ((p, u) ∉ pairs ->
     exists r w',
       generate_product_review p u idx pairs w
         = Ok (Some r, {[(p, u)]} ∪ pairs) w' /\
       Review.productId r = p /\ Review.userId r = u).
Proof.
  split; intros Hin.
  - unfold generate_product_review. by rewrite bool_decide_eq_true_2.
  - destruct (returns (m:=generate_product_review p u idx pairs) w)
      as ([r pairs'] & w' & H).
    pose proof (generate_product_review_spec _ _ _ _ _ _ _ _ H) as Hspec.
    destruct r as [r|]; [|by destruct Hspec].
    destruct Hspec as (_ & -> & Hp & Hu & _). eauto.
Qed.

(** C2. In a run of the script a review is [verified] if and only if
    some order of the run has the review's [userId] as [customerId] and a
    line item with the review's [productId]. *)
Theorem run_verified_iff_purchased fuel cfg w d w' :
  run fuel cfg w = Ok d w' ->
  forall r, r ∈ product_reviews d ->
    Review.verified r = true <->
    exists o, o ∈ orders d /\ Order.customerId o = Review.userId r /\
      exists it, it ∈ Order.items o /\
        Item.productId it = Review.productId r.
Proof.
  intros (S1 & w1 & w2 & S3 & w3 & w4 & S5 & w5 &
          _ & _ & _ & _ & _ & Hr)%run_stages r Hin.
  rewrite (generate_product_reviews_verified _ _ _ _ _ _ _ _ Hr r Hin).
  rewrite bool_decide_eq_true. apply index_orders_spec.
Qed.

End ReviewClaims.

Lemma run_verified_iff_purchased_witness :
  exists d w' r,
    @run Demo.counting 3 Demo.tiny Demo.start = Ok d w' /\
    r ∈ product_reviews d /\
    (Review.verified r = true <->
     exists o, o ∈ orders d /\ Order.customerId o = Review.userId r /\
       exists it, it ∈ Order.items o /\
         Item.productId it = Review.productId r).
Proof.
  eassert (returned (@run Demo.counting 3 Demo.tiny Demo.start)
             ≫= (fun d => head (product_reviews d)) = Some _) as Hr
    by (vm_compute; reflexivity).
  assert (is_ok (@run Demo.counting 3 Demo.tiny Demo.start) = true)
    as (d & w' & E)%is_ok_Ok by (vm_compute; reflexivity).
  rewrite E in Hr. simpl in Hr. apply head_elem_of in Hr.
  eexists d, w', _. split; [exact E|]. split; [exact Hr|].
  exact (run_verified_iff_purchased _ _ _ _ _ E _ Hr).
Defined.

(* ===================================================================== *)
(** ** Unique keys *)
(* ===================================================================== *)

Section KeyClaims.
Context {src : Source}.

(** C3. In a run of the script no two users share an email, no two
    categories a slug, no two products a SKU and no two orders an
    orderNumber: each generator returns a value that is outside its
    registry and adds it. *)
Theorem run_unique_keys fuel cfg w d w' :
  run fuel cfg w = Ok d w' ->
  NoDup (map User.email (users d)) /\
  NoDup (map Category.slug (categories d)) /\
  NoDup (map Product.sku (products d)) /\
  NoDup (map Order.orderNumber (orders d)).
Proof.
  intros (S1 & w1 & w2 & S3 & w3 & w4 & S5 & w5 &
          Hu & Hc & Hp & _ & Ho & _)%run_stages.
  rewrite !map_fmap. repeat split.
  - eapply (comprehension_unique User.email) in Hu as [Hu _]; [done|].
    intros ? ? ? ? ? (? & ? & _)%generate_user_spec. done.
  - apply generate_categories_ok in Hc as (S & _ & _ & _ & Hc & _). done.
  - eapply (comprehension_unique Product.sku) in Hp as [Hp _]; [done|].
    intros ? ? ? ? ? ?%generate_product_spec. done.
  - eapply (comprehension_unique Order.orderNumber) in Ho as [Ho _]; [done|].
    intros ? ? ? ? ? (? & ? & _)%generate_order_spec. done.
Qed.

(** C4. In a run of the script every category with a [parentId] has it
    equal to the [_id] of a category at a strictly earlier position of the
    list, and no chain of parent links leads from a category back to
    itself. *)
Theorem run_category_forest fuel cfg w d w' :
  run fuel cfg w = Ok d w' ->
  parents_earlier (categories d) /\
  forall c, ~ tc (parent_of (categories d)) c c.
Proof.
  intros (S1 & w1 & w2 & S3 & w3 & w4 & S5 & w5 &
          _ & Hc & _)%run_stages.
  apply generate_categories_ok in Hc as (S & _ & Hid & Hpar & _).
  split; [done|]. intros c. by apply forest_acyclic.
Qed.

End KeyClaims.

Lemma run_unique_keys_witness :
  exists d w',
    @run Demo.counting 3 Demo.tiny Demo.start = Ok d w' /\
    NoDup (map User.email (users d)) /\
    NoDup (map Category.slug (categories d)) /\
    NoDup (map Product.sku (products d)) /\
    NoDup (map Order.orderNumber (orders d)).
Proof.
  assert (is_ok (@run Demo.counting 3 Demo.tiny Demo.start) = true)
    as (d & w' & E)%is_ok_Ok by (vm_compute; reflexivity).
  exists d, w'. split; [exact E|].
  exact (run_unique_keys _ _ _ _ _ E).
Defined.

Lemma run_category_forest_witness :
  exists d w',
    @run Demo.counting 3 Demo.tiny Demo.start = Ok d w' /\
    parents_earlier (categories d) /\
    forall c, ~ tc (parent_of (categories d)) c c.
Proof.
  assert (is_ok (@run Demo.counting 3 Demo.tiny Demo.start) = true)
    as (d & w' & E)%is_ok_Ok by (vm_compute; reflexivity).
  exists d, w'. split; [exact E|].
  exact (run_category_forest _ _ _ _ _ E).
Defined.

(* ===================================================================== *)
(** ** Primary links *)
(* ===================================================================== *)

(** C5, the failing input: one product linked to two categories, when the
    coin of [generate_product_category] comes up heads for both links.
    Both links of the product are primary. *)
Theorem two_primary_links_for_one_product :
  exists l1 l2 w',
    @generate_product_categories (Demo.source_of [1%N] 0) [7%N] [1%N; 2%N]
      Demo.start = Ok [l1; l2] w' /\
    ProductCategory.productId l1 = 7%N /\
    ProductCategory.productId l2 = 7%N /\
    ProductCategory.categoryId l1 <> ProductCategory.categoryId l2 /\
    ProductCategory.isPrimary l1 = true /\
    ProductCategory.isPrimary l2 = true.
Proof.
  eexists _, _, _. split; [vm_compute; reflexivity|].
  repeat split. discriminate.
Qed.

(* ===================================================================== *)
(** ** Retry loops *)
(* ===================================================================== *)

Section Uncapped.
Context {src : Source}.

Lemma first_slug_Ok w :
  first_slug w =
    Ok (create_slug
          (PyStr.capitalize (fake_str Word (tape (cursor w))) +:+ " " +:+
           PyStr.capitalize (fake_str Word (tape (Datatypes.S (cursor w))))))
       (World (Datatypes.S (Datatypes.S (cursor w))) (next_oid w)).
Proof. reflexivity. Qed.

(** C7, as amended.  No retry loop has an iteration cap or an exhaustion
    error: a generator is still inside its loop after [fuel] turns
    exactly when the first candidate and the [fuel] redrawn ones are all
    in the registry, and the review loop exactly when the list is below
    the target after each of the first [fuel] turns. *)
Theorem retry_loops_run_while_colliding fuel (S : gset string) w :
  (generate_user fuel S w = Spin <->
   forall k, (k <= fuel)%nat ->
     exists c w', candidate (fake Email) (fun _ => fake Email) k w = Ok c w'
                  /\ c ∈ S) /\
  (forall parent_id level,
     generate_category fuel S parent_id level w = Spin <->
     forall k, (k <= fuel)%nat ->
       exists c w', candidate first_slug next_slug k w = Ok c w' /\ c ∈ S) /\
  (generate_product fuel S w = Spin <->
   forall k, (k <= fuel)%nat ->
     exists c w', candidate generate_sku (fun _ => generate_sku) k w = Ok c w'
                  /\ c ∈ S) /\
  (forall customer_ids products,
     generate_order fuel customer_ids products S w = Spin <->
     forall k, (k <= fuel)%nat ->
       exists c w',
         candidate generate_order_number (fun _ => generate_order_number) k w
           = Ok c w' /\ c ∈ S) /\
  (forall target user_ids product_ids order_products,
     generate_product_reviews fuel target user_ids product_ids
       order_products w = Spin <->
     forall k, (k <= fuel)%nat ->
       exists st w',
         turns k (review_step user_ids product_ids order_products) ([], ∅) w
           = Ok st w' /\ (length st.1 < target)%nat).
Proof.
  split; [|split; [|split; [|split]]].
  - unfold generate_user. apply retry_Spin_iff; apply _.
  - intros parent_id level.
    pose proof (retry_Spin_iff S fuel first_slug next_slug
                  (fun _ => ret tt) w _ _ _) as <-.
    unfold generate_category.
    rewrite !bind_Spin. rewrite first_slug_Ok. unfold fake at 1, draw.
    split.
    + intros [[H|(a & w1 & _ & H)]%bind_Spin|(w1 & wa & Hw1 & H)];
        [discriminate|discriminate|].
      apply bind_Ok in Hw1 as (d & wd & [= <- <-] & [= <- <-]).
      apply bind_Spin in H as [[H|(a & w1 & _ & H)]%bind_Spin
                              |(w2 & wb & Hw2 & H)];
        [discriminate|discriminate|].
      apply bind_Ok in Hw2 as (d & wd & [= <- <-] & [= <- <-]).
      apply bind_Spin in H as [H|(c & w' & _ & H)].
      * right. eexists _, _. split; [reflexivity|].
        apply bind_Spin. left. exact H.
      * exfalso. revert H. apply no_spin.
    + intros [[=]|(s0 & w0 & [= <- <-] & [H|(? & ? & _ & [=])]%bind_Spin)].
      right. eexists _, _. split; [reflexivity|].
      apply bind_Spin. right. eexists _, _. split; [reflexivity|].
      apply bind_Spin. left. exact H.
  - unfold generate_product. apply retry_Spin_iff; apply _.
  - intros customer_ids products. unfold generate_order.
    apply retry_Spin_iff; apply _.
  - intros target user_ids product_ids order_products.
    unfold generate_product_reviews. rewrite bind_Spin.
    rewrite while_Spin_iff by apply _. split.
    + intros [H|(st & w' & _ & H)]; [|by destruct st].
      intros k Hk. destruct (H k Hk) as (st & w' & Ht & Hc%Nat.ltb_lt).
      eauto.
    + intros H. left. intros k Hk.
      destruct (H k Hk) as (st & w' & Ht & Hc%Nat.ltb_lt). eauto.
Qed.

End Uncapped.

Lemma stuck_turns k w :
  exists w',
    turns k (fun _ => @fake Demo.stuck Email) "user0@example.org" w
      = Ok "user0@example.org" w'.
Proof.
  revert w. induction k as [|k IH]; intros w; simpl; [by exists w|].
  destruct (IH (World (Datatypes.S (cursor w)) (next_oid w))) as [w' Hw'].
  exists w'. apply bind_Ok. eexists _, _. split; [|exact Hw']. reflexivity.
Qed.

(** C7, the claim as stated fails: with a Faker that keeps printing an
    email that is already registered, [generate_user] has not ended, by a
    return or by an exception, after any number of turns. *)
Lemma email_loop_never_ends :
  ~ exists fuel,
      @generate_user Demo.stuck fuel {["user0@example.org"]} Demo.start
        <> Spin.
Proof.
  intros [fuel H]. apply H. unfold generate_user.
  apply retry_Spin_iff; try apply _.
  intros k _. destruct (stuck_turns k (World 1 0)) as [w' Hw'].
  exists "user0@example.org", w'. split; [|by apply elem_of_singleton].
  unfold candidate. apply bind_Ok. eexists _, _. split; [|exact Hw'].
  reflexivity.
Qed.

(* ===================================================================== *)
(** ** Profile fields *)
(* ===================================================================== *)

Section ProfileCells.
Context {src : Source}.

Lemma coin_cell w :
  coin w = Ok (heads (cursor w)) (World (Datatypes.S (cursor w)) (next_oid w)).
Proof. reflexivity. Qed.

Lemma choice_cell {A} (xs : list A) w a w' :
  choice xs w = Ok a w' ->
  w' = World (Datatypes.S (cursor w)) (next_oid w).
Proof.
  destruct xs as [|x xs]; [discriminate|]. by intros [= _ <-].
Qed.

Lemma randint_cell a b w z w' :
  randint a b w = Ok z w' ->
  w' = World (Datatypes.S (cursor w)) (next_oid w).
Proof.
  unfold randint. destruct (b <? a); [discriminate|]. by intros [= _ <-].
Qed.

Lemma words_cell w nb w' :
  randint 0 5 w = Ok nb w' -> Z.to_nat nb = words_drawn (cursor w).
Proof. unfold words_drawn. by intros [= <- _]. Qed.

Lemma fake_words_cell n w ws w' :
  fake_words n w = Ok ws w' ->
  ws = (fun i => fake_str Word (tape i)) <$> seq (cursor w) n /\
  w' = World (cursor w + n) (next_oid w).
Proof.
  revert w ws w'. induction n as [|n IH]; intros w ws w' H; simpl in H.
  - injection H as <- <-. destruct w. simpl. split; [done|]. f_equal. lia.
  - apply bind_Ok in H as (s & w1 & [= <- <-] & H).
    apply bind_Ok in H as (ws' & w2 & H2 & [= <- <-]).
    apply IH in H2 as [-> ->]. simpl. split; [done|]. f_equal. lia.
Qed.

(** The email loop reads one cell per turn: it ends on the first cell
    whose email is not registered. *)
Lemma email_loop_cells (S : gset string) fuel c o n e w' :
  while fuel (fun x => bool_decide (x ∈ S)) (fun _ => fake Email)
    (fake_str Email (tape (c + n))) (World (Datatypes.S (c + n)) o)
    = Ok e w' ->
  (forall t', (t' < n)%nat -> fake_str Email (tape (c + t')) ∈ S) ->
  exists t,
    (forall t', (t' < t)%nat -> fake_str Email (tape (c + t')) ∈ S) /\
    e = fake_str Email (tape (c + t)) /\ (e ∉ S) /\
    w' = World (Datatypes.S (c + t)) o.
Proof.
  revert n. induction fuel as [|fuel IH]; intros n H Hn; simpl in H;
    case_bool_decide as Hin.
  - discriminate.
  - injection H as <- <-. by exists n.
  - apply bind_Ok in H as (e1 & w1 & [= <- <-] & H). simpl in H.
    replace (Datatypes.S (c + n)) with (c + Datatypes.S n)%nat in H by lia.
    apply IH in H; [done|].
    intros t' Ht'. destruct (decide (t' = n)) as [->|]; [done|].
    apply Hn. lia.
  - injection H as <- <-. by exists n.
Qed.

(** Where [generate_user] reads its three profile coins, and what each
    decides. *)
Lemma generate_user_cells fuel S w u S' w' :
  generate_user fuel S w = Ok (u, S') w' ->
  exists t : nat,
    (forall t', (t' < t)%nat -> fake_str Email (tape (cursor w + t')) ∈ S) /\
    User.email u = fake_str Email (tape (cursor w + t)) /\
    (User.email u ∉ S) /\
    let c := (cursor w + t + 2)%nat in
    (c < interests_cell c < avatar_cell c)%nat /\
    present (User.age (User.profile u)) = heads c /\
    User.interests (User.profile u)
    = (if heads (interests_cell c)
       then (fun i => fake_str Word (tape i))
              <$> seq (interests_cell c + 2)
                      (words_drawn (interests_cell c + 1))
       else []) /\
    present (User.avatar (User.profile u)) = heads (avatar_cell c).
Proof.
  unfold generate_user. intros H.
  apply bind_Ok in H as (e0 & w0 & [= <- <-] & H).
  apply bind_Ok in H as (e & w1 & Hloop & H).
  replace (cursor w) with (cursor w + 0)%nat in Hloop by lia.
  apply email_loop_cells in Hloop as (t & Ht & -> & Hfresh & ->); [|lia].
  exists t. split; [exact Ht|].
  apply bind_Ok in H as (id & w2 & [= <- <-] & H).
  apply bind_Ok in H as (name & w3 & [= <- <-] & H).
  apply bind_Ok in H as (has_age & w4 & Hage & H).
  rewrite coin_cell in Hage. injection Hage as <- <-.
  cbn [cursor next_oid] in H.
  replace (Datatypes.S (Datatypes.S (cursor w + t))) with (cursor w + t + 2)%nat
    in H by lia.
  set (c := (cursor w + t + 2)%nat) in *.
  apply bind_Ok in H as (age & w5 & Hage & H).
  apply bind_Ok in H as (country & w6 & ->%choice_cell & H).
  apply bind_Ok in H as (has_int & w7 & Hint & H).
  rewrite coin_cell in Hint. injection Hint as <- <-.
  assert (cursor w5 = (c + (if heads c then 2 else 1))%nat) as Hw5.
  { destruct (heads c).
    - apply bind_Ok in Hage as (a & wa & ->%randint_cell & [= _ <-]).
      simpl. lia.
    - injection Hage as _ <-. simpl. lia. }
  assert (present age = heads c) as Hpresent.
  { destruct (heads c).
    - by apply bind_Ok in Hage as (a & wa & _ & [= <- _]).
    - by injection Hage as <- _. }
  cbn [cursor next_oid] in H. rewrite Hw5 in H.
  replace (Datatypes.S (c + (if heads c then 2 else 1)))
    with (interests_cell c) in H by (unfold interests_cell; lia).
  set (j := interests_cell c) in *.
  apply bind_Ok in H as (interests & w8 & Hwords & H).
  apply bind_Ok in H as (has_av & w9 & Hav & H).
  rewrite coin_cell in Hav. injection Hav as <- <-.
  assert (cursor w8 = avatar_cell c
          /\ interests
             = (if heads j
                then (fun i => fake_str Word (tape i))
                       <$> seq (j + 2) (words_drawn (j + 1))
                else [])) as [Hw8 Hinterests].
  { unfold avatar_cell. fold j. cbv zeta. destruct (heads j).
    - apply bind_Ok in Hwords as (nb & wa & Hnb & Hwords).
      pose proof (words_cell _ _ _ Hnb) as Hdrawn.
      apply randint_cell in Hnb as ->.
      apply fake_words_cell in Hwords as [-> ->]. simpl in *.
      replace (j + 1)%nat with (Datatypes.S j) by lia.
      replace (j + 2)%nat with (Datatypes.S (Datatypes.S j)) by lia.
      rewrite Hdrawn. split; [lia | done].
    - injection Hwords as <- <-. simpl. split; [lia | done]. }
  rewrite Hw8 in H.
  apply bind_Ok in H as (avatar & w10 & Havatar & H).
  assert (present avatar = heads (avatar_cell c)) as Hpresent'.
  { destruct (heads (avatar_cell c)).
    - by apply bind_Ok in Havatar as (a & wa & _ & [= <- _]).
    - by injection Havatar as <- _. }
  assert (c < j < avatar_cell c)%nat as Hcells.
  { unfold avatar_cell. fold j. cbv zeta. subst j. unfold interests_cell.
    repeat case_match; lia. }
  inv_run H; injection H as <- <-; simpl; done.
Qed.

End ProfileCells.

(** C8, the claim as stated fails: no run of [generate_user] leaves
    [profile.country] absent; it is not behind a coin flip. *)
Lemma country_never_absent :
  ~ exists (src : Source) fuel S w u S' w',
      generate_user fuel S w = Ok (u, S') w' /\
      User.country (User.profile u) = None.
Proof.
  intros (src & fuel & S & w & u & S' & w' & H & Hnone).
  apply generate_user_spec in H as (_ & _ & c & Hc & _). congruence.
Qed.

(** C8, as amended.  [country] is always present, drawn from the six
    countries.  [age] and [avatar] are present or absent, and [interests]
    drawn or empty, by three separate coin flips.  In every run that
    returns, with the email found at the draw [t] of the email loop and the
    name drawn after it, each of the three fields is decided by the outcome
    of a [random.choice([True, False])] of its own, read from a cell of the
    tape of its own: [age] is present exactly if the coin at cell [c] is
    heads, [interests] is the drawn word list if the coin at
    [interests_cell c] is heads and the empty list if not, [avatar] is
    present exactly if the coin at [avatar_cell c] is heads, and the three
    cells differ.  No field depends on the coin of another.  And every
    combination of the three occurs for some random source. *)
Theorem profile_fields_presence :
  (forall (src : Source) fuel S w u S' w',
     generate_user fuel S w = Ok (u, S') w' ->
     exists c, User.country (User.profile u) = Some c /\ c ∈ countries) /\
  (forall (src : Source) fuel S w u S' w',
     generate_user fuel S w = Ok (u, S') w' ->
     exists t : nat,
       (forall t', (t' < t)%nat ->
          fake_str Email (tape (cursor w + t')) ∈ S) /\
       User.email u = fake_str Email (tape (cursor w + t)) /\
       (User.email u ∉ S) /\
       let c := (cursor w + t + 2)%nat in
       (c < interests_cell c < avatar_cell c)%nat /\
       present (User.age (User.profile u)) = heads c /\
       User.interests (User.profile u)
       = (if heads (interests_cell c)
          then (fun i => fake_str Word (tape i))
                 <$> seq (interests_cell c + 2)
                         (words_drawn (interests_cell c + 1))
          else []) /\
       present (User.avatar (User.profile u)) = heads (avatar_cell c)) /\
  (forall has_age has_interests has_avatar : bool,
     exists u S' w',
       @generate_user
         (Demo.source_of (Demo.profile_draws has_age has_interests has_avatar) 0)
         0 ∅ Demo.start = Ok (u, S') w' /\
       present (User.age (User.profile u)) = has_age /\
       non_empty (User.interests (User.profile u)) = has_interests /\
       present (User.avatar (User.profile u)) = has_avatar).
Proof.
  split; [|split].
  - intros src fuel S w u S' w' H.
    by apply generate_user_spec in H as (_ & _ & H).
  - intros src. apply generate_user_cells.
  - intros has_age has_interests has_avatar.
    destruct has_age, has_interests, has_avatar;
      match goal with
      | |- context [Demo.profile_draws ?a ?i ?v] =>
          eassert (fst <$> returned (@generate_user
                     (Demo.source_of (Demo.profile_draws a i v) 0) 0 ∅
                     Demo.start) = Some _) as (S' & w' & H)%returned_fst
            by (vm_compute; reflexivity)
      end;
      eexists _, S', w'; (split; [exact H|]); repeat split.
Qed.

(* ===================================================================== *)
(** * Further properties of the generators and of the script *)
(* ===================================================================== *)

(* ===================================================================== *)
(** ** Slugs *)
(* ===================================================================== *)

Lemma slug_char_lower c : PyStr.slug_char c = true -> PyStr.lower_char c = c.
Proof.
  destruct c as [[] [] [] [] [] [] [] []]; vm_compute; congruence.
Qed.

Lemma slug_char_no_space c :
  PyStr.slug_char c = true -> (if Ascii.eqb c " " then "-"%char else c) = c.
Proof.
  destruct c as [[] [] [] [] [] [] [] []]; vm_compute; congruence.
Qed.

Lemma filter_chars_all keep s :
  Forall (fun c => keep c = true)
         (list_ascii_of_string (PyStr.filter_chars keep s)).
Proof.
  induction s as [|c s IH]; simpl; [constructor|].
  destruct (keep c) eqn:Hc; simpl; [constructor|]; done.
Qed.

Lemma filter_chars_id keep s :
  Forall (fun c => keep c = true) (list_ascii_of_string s) ->
  PyStr.filter_chars keep s = s.
Proof.
  induction s as [|c s IH]; simpl; [done|].
  intros [Hc Hs]%Forall_cons. rewrite Hc. f_equal. auto.
Qed.

Lemma map_chars_id f s :
  Forall (fun c => f c = c) (list_ascii_of_string s) ->
  PyStr.map_chars f s = s.
Proof.
  induction s as [|c s IH]; simpl; [done|].
  intros [Hc Hs]%Forall_cons. rewrite Hc. f_equal. auto.
Qed.

(** X1. A slug holds only lower-case letters, digits and hyphens. *)
Theorem create_slug_chars name :
  Forall (fun c => PyStr.slug_char c = true)
         (list_ascii_of_string (create_slug name)).
Proof. unfold create_slug. apply filter_chars_all. Qed.

(** X2. Slugging a slug gives it back: [create_slug] is idempotent. *)
Theorem create_slug_idempotent name :
  create_slug (create_slug name) = create_slug name.
Proof.
  assert (Forall (fun c => PyStr.slug_char c = true)
            (list_ascii_of_string (create_slug name))) as H
    by apply filter_chars_all.
  set (s := create_slug name) in *. unfold create_slug, PyStr.lower,
    PyStr.spaces_to_hyphens.
  rewrite (map_chars_id PyStr.lower_char s).
  - rewrite (map_chars_id _ s).
    + by apply filter_chars_id.
    + eapply Forall_impl; [exact H|]. apply slug_char_no_space.
  - eapply Forall_impl; [exact H|]. apply slug_char_lower.
Qed.

Lemma name_char_kept c :
  name_char c = true ->
  PyStr.slug_char
    (if Ascii.eqb (PyStr.lower_char c) " " then "-"%char
     else PyStr.lower_char c) = true.
Proof.
  destruct c as [[] [] [] [] [] [] [] []]; vm_compute; congruence.
Qed.

(** X3. A name made only of letters, digits, spaces and hyphens loses no
    character: its slug is as long as the name. *)
Theorem create_slug_keeps_length name :
  Forall (fun c => name_char c = true) (list_ascii_of_string name) ->
  String.length (create_slug name) = String.length name.
Proof.
  unfold create_slug, PyStr.lower, PyStr.spaces_to_hyphens.
  induction name as [|c s IH]; simpl; [done|].
  intros [Hc Hs]%Forall_cons. rewrite (name_char_kept c Hc). simpl.
  f_equal. auto.
Qed.

(* ===================================================================== *)
(** ** The library calls *)
(* ===================================================================== *)

Section Library.
Context {src : Source}.

Lemma randint_range a b w r w' :
  randint a b w = Ok r w' -> a <= r <= b.
Proof.
  unfold randint. destruct (b <? a) eqn:Hab; [discriminate|].
  intros H. inv_run H. subst.
  pose proof (Z.mod_pos_bound (Z.of_N a0) (b - a + 1)). lia.
Qed.

Lemma submseteq_NoDup {A} (l k : list A) : l ⊆+ k -> NoDup k -> NoDup l.
Proof.
  induction 1 as [|x l k Hlk IH|x y l|x l k Hlk IH|l k m _ IH1 _ IH2];
    intros Hk; auto.
  - apply NoDup_cons in Hk as [Hx Hk]. apply NoDup_cons. split; [|auto].
    intros Hin. apply Hx. by eapply elem_of_submseteq.
  - by rewrite (Permutation_swap x y l).
  - apply NoDup_cons in Hk as [_ Hk]. auto.
Qed.

(** A sample is made of [k] elements of the population, taken at distinct
    positions. *)
Lemma sample_spec {A} (population : list A) k w l w' :
  sample population k w = Ok l w' ->
  l ⊆+ population /\ length l = k.
Proof.
  revert population w l w'. induction k as [|k IH]; intros pop w l w' H;
    simpl in H.
  - inv_run H. subst. split; [apply submseteq_nil_l|done].
  - destruct pop as [|x pop]; [discriminate|]. inv_run H. subst.
    apply IH in Hstep0 as [Hsub Hlen]. split; [|simpl; lia].
    set (j := N.to_nat (a mod N.of_nat (length (x :: pop)))) in *.
    assert (j < length (x :: pop))%nat as Hj.
    { pose proof (N.mod_upper_bound a (N.of_nat (length (x :: pop)))).
      subst j. simpl in *. lia. }
    destruct (lookup_lt_is_Some_2 _ _ Hj) as [y Hy].
    rewrite (nth_lookup_Some _ _ x _ Hy).
    rewrite (delete_Permutation _ _ _ Hy). by apply submseteq_skip.
Qed.

Lemma fake_words_length n w l w' :
  fake_words n w = Ok l w' -> length l = n.
Proof.
  revert w l w'. induction n as [|n IH]; intros w l w' H; simpl in H;
    inv_run H; subst; simpl; eauto.
Qed.

Lemma for_each_length {A B} (f : A -> M B) xs w ys w' :
  for_each f xs w = Ok ys w' -> length ys = length xs.
Proof. intros H%for_each_Forall2. symmetry. by eapply Forall2_length. Qed.

End Library.

(* ===================================================================== *)
(** ** Identifiers *)
(* ===================================================================== *)

Section MoreFrame.
Context {src : Source}.

Global Instance keeps_random : KeepsOid random.
Proof. unfold random. apply _. Qed.

Global Instance keeps_uniform a b : KeepsOid (uniform a b).
Proof. unfold uniform. apply _. Qed.

Global Instance keeps_fake_images n : KeepsOid (fake_images n).
Proof. induction n; simpl; apply _. Qed.

Global Instance keeps_generate_sku : KeepsOid generate_sku.
Proof. unfold generate_sku. apply _. Qed.

Global Instance keeps_generate_order_number : KeepsOid generate_order_number.
Proof. unfold generate_order_number. apply _. Qed.

Global Instance keeps_generate_address : KeepsOid generate_address.
Proof. unfold generate_address. apply _. Qed.

Global Instance keeps_generate_order_item p : KeepsOid (generate_order_item p).
Proof. unfold generate_order_item. apply _. Qed.

Global Instance keeps_for_each {A B} (f : A -> M B) xs :
  (forall x, KeepsOid (f x)) -> KeepsOid (for_each f xs).
Proof. intros Hf. induction xs; simpl; apply _. Qed.

Global Instance keeps_sample {A} (xs : list A) k : KeepsOid (sample xs k).
Proof.
  revert xs. induction k as [|k IH]; intros xs; simpl; [apply _|].
  destruct xs; apply _.
Qed.

Global Instance keeps_next_slug s : KeepsOid (next_slug s).
Proof. unfold next_slug. apply _. Qed.

(** Each generator takes one ObjectId, the next of the counter. *)
Lemma generate_user_oid fuel S w u S' w' :
  generate_user fuel S w = Ok (u, S') w' ->
  User._id u = next_oid w /\ next_oid w' = N.succ (next_oid w).
Proof.
  unfold generate_user. intros H. inv_run H; injection H as <- <-; simpl;
    subst; oid_facts; subst; split; congruence.
Qed.

Lemma generate_product_oid fuel S w p S' w' :
  generate_product fuel S w = Ok (p, S') w' ->
  Product._id p = next_oid w /\ next_oid w' = N.succ (next_oid w).
Proof.
  unfold generate_product. intros H. inv_run H; injection H as <- <-; simpl;
    subst; oid_facts; subst; split; congruence.
Qed.

Lemma generate_product_category_spec product_id category_id w pc w' :
  generate_product_category product_id category_id w = Ok pc w' ->
  ProductCategory.productId pc = product_id /\
  ProductCategory.categoryId pc = category_id /\
  0 <= ProductCategory.sortOrder pc <= 100 /\
  ProductCategory._id pc = next_oid w /\
  next_oid w' = N.succ (next_oid w).
Proof.
  unfold generate_product_category. intros H. inv_run H. subst. simpl.
  split; [done|]. split; [done|].
  split; [by eapply randint_range|]. oid_facts. subst. split; congruence.
Qed.

Lemma generate_order_oid fuel customer_ids products S w o S' w' :
  generate_order fuel customer_ids products S w = Ok (o, S') w' ->
  Order._id o = next_oid w /\ next_oid w' = N.succ (next_oid w).
Proof.
  unfold generate_order. intros H. inv_run H; injection H as <- <-; simpl;
    subst; oid_facts; subst; split; congruence.
Qed.

Lemma generate_product_review_oid p u idx pairs w r pairs' w' :
  generate_product_review p u idx pairs w = Ok (Some r, pairs') w' ->
  Review._id r = next_oid w /\ next_oid w' = N.succ (next_oid w).
Proof.
  unfold generate_product_review. intros H. inv_run H; [discriminate|].
  injection H as <- <-. simpl. subst. oid_facts. subst. split; congruence.
Qed.

End MoreFrame.

Section Windows.
Context {src : Source}.

Lemma window_nil {A} (id : A -> ObjectId) lo : window id [] lo lo.
Proof.
  split; [constructor|]. split; [lia|]. intros x []%elem_of_nil.
Qed.

Lemma window_snoc {A} (id : A -> ObjectId) l lo hi a :
  window id l lo hi -> id a = hi -> window id (l ++ [a]) lo (N.succ hi).
Proof.
  intros (Hnd & Hle & Hin) Ha. split; [|split; [lia|]].
  - rewrite fmap_app. apply NoDup_app.
    repeat split; [done| |apply NoDup_singleton].
    intros k (x & -> & Hx)%list_elem_of_fmap Hk%list_elem_of_singleton.
    specialize (Hin x Hx). simpl in Hk. lia.
  - intros x [Hx| ->%list_elem_of_singleton]%elem_of_app.
    + specialize (Hin x Hx). lia.
    + lia.
Qed.

Lemma window_app {A} (id : A -> ObjectId) l1 l2 lo mid hi :
  window id l1 lo mid -> window id l2 mid hi -> window id (l1 ++ l2) lo hi.
Proof.
  intros (Hnd1 & Hle1 & Hin1) (Hnd2 & Hle2 & Hin2). split; [|split; [lia|]].
  - rewrite fmap_app. apply NoDup_app. repeat split; [done| |done].
    intros k (x & -> & Hx)%list_elem_of_fmap (y & Hk & Hy)%list_elem_of_fmap.
    specialize (Hin1 x Hx). specialize (Hin2 y Hy). lia.
  - intros x [Hx|Hx]%elem_of_app.
    + specialize (Hin1 x Hx). lia.
    + specialize (Hin2 x Hx). lia.
Qed.

Lemma window_disjoint {A B} (ida : A -> ObjectId) (idb : B -> ObjectId)
    la lb lo mid hi k :
  window ida la lo mid -> window idb lb mid hi ->
  k ∈ ida <$> la -> k ∉ idb <$> lb.
Proof.
  intros (_ & _ & Hin1) (_ & _ & Hin2)
    (x & -> & Hx)%list_elem_of_fmap (y & Hk & Hy)%list_elem_of_fmap.
  specialize (Hin1 x Hx). specialize (Hin2 y Hy). lia.
Qed.

(** A comprehension whose generator takes the next ObjectId for each
    record returns records with the ids from the counter at the start up
    to the counter at the end. *)
Lemma comprehension_window {A R} (id : A -> ObjectId)
    (gen : R -> M (A * R)) n reg w l reg' w' :
  (forall reg w a reg' w',
      gen reg w = Ok (a, reg') w' ->
      id a = next_oid w /\ next_oid w' = N.succ (next_oid w)) ->
  comprehension n gen reg w = Ok (l, reg') w' ->
  window id l (next_oid w) (next_oid w').
Proof.
  intros Hgen H.
  pose (P := fun (l : list A) (_ : R) (w1 : world) =>
               window id l (next_oid w) (next_oid w1)).
  change (P ([] ++ l) reg' w').
  eapply (comprehension_invariant P); [| |exact H].
  - subst P. simpl. intros l1 R1 w1 a R2 w2 Hl [Ha ->]%Hgen.
    by apply window_snoc.
  - apply window_nil.
Qed.

End Windows.

Section Stages.
Context {src : Source}.

Global Instance keeps_for_fold {A S} (body : S -> A -> M S) xs s :
  (forall s x, KeepsOid (body s x)) -> KeepsOid (for_fold body xs s).
Proof. intros Hb. revert s. induction xs; intros s; simpl; apply _. Qed.

Global Instance keeps_level_count_step cfg st level :
  KeepsOid (level_count_step cfg st level).
Proof. destruct st. unfold level_count_step. apply _. Qed.

Global Instance keeps_level_counts_of cfg : KeepsOid (level_counts_of cfg).
Proof.
  unfold level_counts_of. apply keeps_bind; [apply _|]. intros []. apply _.
Qed.

Lemma category_levels_window fuel counts levels lo cats S w cats' S' w' :
  window Category._id cats lo (next_oid w) ->
  category_levels fuel counts levels (cats, S) w = Ok (cats', S') w' ->
  window Category._id cats' lo (next_oid w').
Proof.
  revert cats S w. induction levels as [|level levels IH];
    intros cats S w Hwin H; simpl in H.
  - inv_run H. injection H as <- <-. by subst.
  - destruct (parent_ids_at level cats) as [|p0 ps] eqn:Hps.
    + inv_run H. injection H as <- <-. by subst.
    + inv_run H. eapply IH; [|exact H].
      eapply window_app; [exact Hwin|].
      eapply comprehension_window; [|exact Hstep].
      intros reg w1 a reg' w2 Hg.
      apply bind_Ok in Hg as (p & wc & Hch & Hg).
      apply generate_category_spec in Hg as (_ & _ & _ & -> & ->).
      by rewrite (keeps_oid _ _ _ Hch).
Qed.

Lemma roots_window fuel n S w l S' w' :
  comprehension n (fun S => generate_category fuel S None 0) S w
    = Ok (l, S') w' ->
  window Category._id l (next_oid w) (next_oid w').
Proof.
  apply comprehension_window. intros reg w1 a reg' w2 Hg.
  by apply generate_category_spec in Hg as (_ & _ & _ & -> & ->).
Qed.

Lemma generate_categories_window fuel cfg w cats w' :
  generate_categories fuel cfg w = Ok cats w' ->
  window Category._id cats (next_oid w) (next_oid w').
Proof.
  unfold generate_categories. intros H. inv_run H; subst.
  - rewrite <- (keeps_oid _ _ _ Hstep). eapply window_app.
    + eapply category_levels_window; [|exact Hstep1].
      by eapply roots_window.
    + by eapply roots_window.
  - rewrite <- (keeps_oid _ _ _ Hstep).
    eapply category_levels_window; [|exact Hstep1]. by eapply roots_window.
Qed.

Lemma links_ok_frame pids cids lo pcs pairs w w' :
  next_oid w' = next_oid w -> links_ok pids cids lo pcs pairs w ->
  links_ok pids cids lo pcs pairs w'.
Proof. unfold links_ok. by intros ->. Qed.

Lemma link_category_ok pids cids lo pid pcs pairs flag cid w pcs' pairs' flag' w' :
  pid ∈ pids -> cid ∈ cids ->
  links_ok pids cids lo pcs pairs w ->
  link_category pid (pcs, pairs, flag) cid w = Ok (pcs', pairs', flag') w' ->
  links_ok pids cids lo pcs' pairs' w'.
Proof.
  intros Hpid Hcid (Hwin & Hnd & Hin) H. unfold link_category in H.
  case_bool_decide as Hfresh.
  - apply bind_Ok in H as (pc0 & w1 & Hgen & H).
    apply bind_Ok in H as (acc & w2 & Hacc & H).
    apply ret_Ok in H as [[= <- <- <-] <-].
    apply generate_product_category_spec in Hgen
      as (Hp & Hcat & _ & Hid & Hoid).
    assert (next_oid w2 = N.succ (next_oid w)) as Hw2.
    { rewrite <- Hoid. destruct flag.
      - by apply ret_Ok in Hacc as [_ <-].
      - exact (keeps_oid _ _ _ Hacc). }
    set (pc := if acc then ProductCategory.set_primary pc0 else pc0).
    assert (link_pair pc = (pid, cid) /\ ProductCategory._id pc = next_oid w)
      as [Hpair Hid'].
    { subst pc. unfold link_pair. destruct acc; simpl; by rewrite Hp, Hcat. }
    unfold links_ok. rewrite Hw2.
    split; [by apply window_snoc|]. split.
    + rewrite fmap_app. apply NoDup_app.
      repeat split; [done| |apply NoDup_singleton].
      intros k (x & -> & Hx)%list_elem_of_fmap Hk%list_elem_of_singleton.
      simpl in Hk. rewrite Hpair in Hk. apply Hfresh. rewrite <- Hk.
      by apply Hin.
    + intros x [Hx| ->%list_elem_of_singleton]%elem_of_app.
      * destruct (Hin x Hx) as (? & ? & ?). set_solver.
      * rewrite Hpair. injection Hpair as -> ->. set_solver.
  - apply ret_Ok in H as [[= <- <- <-] <-]. done.
Qed.

End Stages.

Section Stages2.
Context {src : Source}.

Lemma link_product_ok pids cids lo pcs pairs pid w pcs' pairs' w' :
  pid ∈ pids ->
  links_ok pids cids lo pcs pairs w ->
  link_product cids (pcs, pairs) pid w = Ok (pcs', pairs') w' ->
  links_ok pids cids lo pcs' pairs' w'.
Proof.
  intros Hpid Hok H. unfold link_product in H.
  apply bind_Ok in H as (num & w1 & Hnum & H).
  apply bind_Ok in H as (sel & w2 & Hsel & H).
  apply bind_Ok in H as ([[pcs2 pairs2] flag2] & w3 & Hfold & H).
  apply ret_Ok in H as [[= <- <-] <-].
  pose (P := fun (st : list ProductCategory.t * gset (ObjectId * ObjectId) * bool)
                 (w : world) => links_ok pids cids lo st.1.1 st.1.2 w).
  change (P (pcs2, pairs2, flag2) w3).
  eapply (for_fold_invariant P); [| |exact Hfold].
  - intros [[l1 p1] f1] cid wa [[l2 p2] f2] wb HP Hcid Hstep. subst P. simpl in *.
    eapply link_category_ok; [exact Hpid| |exact HP|exact Hstep].
    apply sample_spec in Hsel as [Hsub _]. by eapply elem_of_submseteq.
  - subst P. simpl. eapply links_ok_frame; [|exact Hok].
    rewrite (keeps_oid _ _ _ Hsel). exact (keeps_oid _ _ _ Hnum).
Qed.

Lemma generate_product_categories_ok pids cids w pcs w' :
  generate_product_categories pids cids w = Ok pcs w' ->
  exists pairs, links_ok pids cids (next_oid w) pcs pairs w'.
Proof.
  unfold generate_product_categories. intros H.
  apply bind_Ok in H as ([pcs2 pairs2] & w2 & Hfold & H).
  apply ret_Ok in H as [<- <-]. exists pairs2.
  pose (P := fun (st : list ProductCategory.t * gset (ObjectId * ObjectId))
                 (w1 : world) => links_ok pids cids (next_oid w) st.1 st.2 w1).
  change (P (pcs2, pairs2) w2).
  eapply (for_fold_invariant P); [| |exact Hfold].
  - intros [l1 p1] pid wa [l2 p2] wb HP Hpid Hstep. subst P. simpl in *.
    by eapply link_product_ok.
  - subst P. simpl. split; [apply window_nil|]. split; [constructor|].
    intros pc []%elem_of_nil.
Qed.

Lemma fake_images_length n w l w' :
  fake_images n w = Ok l w' -> length l = n.
Proof.
  revert w l w'. induction n as [|n IH]; intros w l w' H; simpl in H;
    inv_run H; subst; simpl; eauto.
Qed.

Lemma generate_product_review_rating p u idx pairs w r pairs' w' :
  generate_product_review p u idx pairs w = Ok (Some r, pairs') w' ->
  1 <= Review.rating r <= 5 /\
  0 <= Review.yes (Review.helpful r) <= 50 /\
  0 <= Review.no (Review.helpful r) <= 20 /\
  (length (Review.images r) <= 3)%nat.
Proof.
  unfold generate_product_review. intros H. inv_run H; [discriminate|].
  injection H as <- <-. simpl.
  repeat match goal with
         | Hr : randint _ _ _ = Ok _ _ |- _ => apply randint_range in Hr
         end.
  repeat split; try lia.
  match goal with
  | Hi : fake_images _ _ = Ok _ _ |- _ =>
      apply fake_images_length in Hi; rewrite Hi
  end.
  lia.
Qed.

Lemma review_step_ok uids pids target lo idx revs pairs w revs' pairs' w' :
  (length revs < target)%nat ->
  reviews_ok uids pids target lo revs pairs w ->
  review_step uids pids idx (revs, pairs) w = Ok (revs', pairs') w' ->
  reviews_ok uids pids target lo revs' pairs' w'.
Proof.
  intros Hlt (Hwin & Hnd & Hlen & Hin) H. unfold review_step in H.
  apply bind_Ok in H as (u & w1 & Hu & H).
  apply bind_Ok in H as (p & w2 & Hp & H).
  apply bind_Ok in H as ([r pairs2] & w3 & Hgen & H).
  assert (next_oid w2 = next_oid w) as Hw2.
  { rewrite (keeps_oid _ _ _ Hp). exact (keeps_oid _ _ _ Hu). }
  pose proof (generate_product_review_spec _ _ _ _ _ _ _ _ Hgen) as Hspec.
  destruct r as [r|].
  - apply ret_Ok in H as [[= <- <-] <-].
    destruct Hspec as (Hfresh & -> & Hrp & Hru & _).
    apply generate_product_review_oid in Hgen as Hoid.
    apply generate_product_review_rating in Hgen as (Hrate & _).
    destruct Hoid as [Hid Hoid].
    assert (review_pair r = (p, u)) as Hpair
      by (unfold review_pair; by rewrite Hrp, Hru).
    unfold reviews_ok. rewrite Hoid, Hw2.
    split; [apply window_snoc; [done|congruence]|]. split; [|split].
    + rewrite fmap_app. apply NoDup_app.
      repeat split; [done| |apply NoDup_singleton].
      intros k (x & -> & Hx)%list_elem_of_fmap Hk%list_elem_of_singleton.
      simpl in Hk. rewrite Hpair in Hk. apply Hfresh. rewrite <- Hk.
      by apply Hin.
    + rewrite length_app. simpl. lia.
    + intros x [Hx| ->%list_elem_of_singleton]%elem_of_app.
      * destruct (Hin x Hx) as (? & ? & ? & ?). set_solver.
      * rewrite Hpair, Hrp, Hru. repeat split; [set_solver| | |lia|lia].
        -- by eapply choice_In.
        -- by eapply choice_In.
  - apply ret_Ok in H as [[= <- <-] <-].
    destruct Hspec as (_ & -> & ->). unfold reviews_ok. by rewrite Hw2.
Qed.

Lemma generate_product_reviews_ok fuel target uids pids idx w revs w' :
  generate_product_reviews fuel target uids pids idx w = Ok revs w' ->
  length revs = target /\
  exists pairs, reviews_ok uids pids target (next_oid w) revs pairs w'.
Proof.
  unfold generate_product_reviews. intros H.
  apply bind_Ok in H as ([revs2 pairs2] & w2 & Hloop & H).
  apply ret_Ok in H as [<- <-].
  pose (P := fun (st : list Review.t * gset (ObjectId * ObjectId))
                 (w1 : world) =>
               reviews_ok uids pids target (next_oid w) st.1 st.2 w1).
  assert (forall s wa s' wb,
             P s wa -> (length s.1 <? target)%nat = true ->
             review_step uids pids idx s wa = Ok s' wb -> P s' wb) as Hbody.
  { intros [l1 p1] wa [l2 p2] wb HP Hc%Nat.ltb_lt Hstep. subst P.
    simpl in *. by eapply review_step_ok. }
  assert (P ([], ∅) w) as Hinit.
  { subst P. simpl. split; [apply window_nil|]. split; [constructor|].
    split; [simpl; lia|]. intros r []%elem_of_nil. }
  destruct (while_invariant P _ _ _ _ _ _ _ Hbody Hinit Hloop) as [HP Hexit].
  simpl in Hexit.
  apply Nat.ltb_ge in Hexit. subst P. simpl in HP.
  split; [|by exists pairs2]. destruct HP as (_ & _ & Hle & _). lia.
Qed.

End Stages2.

Section Orders.
Context {src : Source}.

Lemma generate_order_item_of p w it w' :
  generate_order_item p w = Ok it w' -> item_of p it.
Proof.
  unfold generate_order_item. intros H. inv_run H. subst.
  apply randint_range in Hstep. repeat split; try done; simpl; lia.
Qed.

Lemma order_items_of ps w its w' :
  for_each generate_order_item ps w = Ok its w' -> Forall2 item_of ps its.
Proof.
  intros H%for_each_Forall2. eapply Forall2_impl; [exact H|].
  intros p it (w1 & w2 & Hit). by eapply generate_order_item_of.
Qed.

(** The items of an order are made from products of the pool, each
    product at most once, and there are as many of them as the draw from
    1 to 5 asks for, or as the pool holds if that is fewer. *)
Lemma generate_order_items fuel customer_ids products S w o S' w' :
  generate_order fuel customer_ids products S w = Ok (o, S') w' ->
  exists selected n,
    selected ⊆+ products /\ Forall2 item_of selected (Order.items o) /\
    1 <= n <= 5 /\
    length (Order.items o) = Nat.min (Z.to_nat n) (length products).
Proof.
  unfold generate_order. intros H.
  apply bind_Ok in H as (n0 & w0 & _ & H).
  apply bind_Ok in H as (n1 & w1 & _ & H).
  apply bind_Ok in H as (num & w2 & Hnum & H).
  apply bind_Ok in H as (sel & w3 & Hsel & H).
  apply bind_Ok in H as (its & w4 & Hits & H).
  assert (Order.items o = its) as ->.
  { inv_run H; by injection H as <- <-. }
  apply sample_spec in Hsel as [Hsub Hlen]. exists sel, num.
  split; [done|]. split; [by eapply order_items_of|].
  split; [by eapply randint_range|].
  apply for_each_length in Hits. congruence.
Qed.

(** The dates of an order follow its status. *)
Lemma generate_order_dates fuel customer_ids products S w o S' w' :
  generate_order fuel customer_ids products S w = Ok (o, S') w' ->
  Order.status o ∈ order_statuses /\
  Order.createdAt o = Order.orderDate o /\
  Order.updatedAt o = Order.orderDate o /\
  (if bool_decide (Order.status o ∈ ["shipped"; "delivered"])
   then exists d, 1 <= d <= 5 /\
          Order.shippedDate o = Some (plus_days (Order.orderDate o) d)
   else Order.shippedDate o = None) /\
  (if bool_decide (Order.status o = "delivered")
   then exists d, 5 <= d <= 10 /\
          Order.deliveredDate o = Some (plus_days (Order.orderDate o) d)
   else Order.deliveredDate o = None).
Proof.
  unfold generate_order. intros H. inv_run H; injection H as <- <-; simpl;
    subst;
    repeat match goal with
           | Hr : randint _ _ _ = Ok _ _ |- _ => apply randint_range in Hr
           | Hr : choice order_statuses _ = Ok _ _ |- _ => apply choice_In in Hr
           | Hr : bool_decide _ = _ |- _ => rewrite Hr
           end;
    repeat split; eauto.
Qed.

End Orders.

Section Sizes.
Context {src : Source}.

Lemma range_spec a b k : k ∈ range a b <-> a <= k < b.
Proof.
  unfold range. rewrite map_fmap, list_elem_of_fmap. split.
  - intros (i & -> & Hi%elem_of_seq). lia.
  - intros Hk. exists (Z.to_nat (k - a)). split; [lia|].
    apply elem_of_seq. lia.
Qed.

Lemma range_NoDup a b : NoDup (range a b).
Proof.
  unfold range. rewrite map_fmap. apply NoDup_fmap_2_strong; [|apply NoDup_seq].
  intros i j _ _ Hij. lia.
Qed.

Lemma level_counts_fold cfg levels counts remaining w counts' remaining' w' :
  0 <= remaining -> NoDup levels ->
  (forall l, l ∈ levels -> l < max_levels cfg) ->
  for_fold (level_count_step cfg) levels (counts, remaining) w
    = Ok (counts', remaining') w' ->
  0 <= remaining' /\
  Z.of_nat (total_levels counts' levels) + remaining' = remaining /\
  (forall k, k ∉ levels -> counts' !! k = counts !! k).
Proof.
  revert counts remaining w. induction levels as [|level levels IH];
    intros counts remaining w Hrem Hnd Hlt H; simpl in H.
  - apply ret_Ok in H as [[= <- <-] <-]. simpl. split; [lia|]. split; [lia|done].
  - apply NoDup_cons in Hnd as [Hlevel Hnd].
    apply bind_Ok in H as ([counts1 rem1] & w1 & Hstep & H).
    unfold level_count_step in Hstep.
    apply bind_Ok in Hstep as (r & w0 & Hr%randint_range & Hstep).
    apply ret_Ok in Hstep as [[= <- <-] _].
    set (c := Z.min (remaining / (max_levels cfg - level)) r) in *.
    assert (0 <= c <= remaining) as Hc.
    { assert (0 < max_levels cfg - level) as Hd.
      { assert (level < max_levels cfg) by (apply Hlt; by left). lia. }
      pose proof (Z.div_pos remaining _ Hrem Hd).
      assert (remaining / (max_levels cfg - level) <= remaining)
        by (apply Z.div_le_upper_bound; nia).
      subst c. lia. }
    apply IH in H as (Hrem' & Hsum & Hother); [|lia|done|].
    + split; [done|]. split.
      * simpl. rewrite (Hother level Hlevel), lookup_insert_eq. simpl. lia.
      * intros k Hk. apply not_elem_of_cons in Hk as [Hne Hk].
        rewrite (Hother k Hk). by rewrite lookup_insert_ne.
    + intros l Hl. apply Hlt. by right.
Qed.

Lemma level_counts_of_spec cfg w counts w' :
  0 <= n_roots cfg <= n_categories cfg ->
  level_counts_of cfg w = Ok counts w' ->
  counts !! 0 = Some (n_roots cfg) /\
  Z.of_nat (total_levels counts (range 1 (max_levels cfg)))
    <= n_categories cfg - n_roots cfg.
Proof.
  intros Hcfg H. unfold level_counts_of in H.
  apply bind_Ok in H as ([counts1 rem1] & w1 & Hfold & H).
  apply ret_Ok in H as [<- _].
  apply level_counts_fold in Hfold as (Hrem & Hsum & Hother);
    [|lia|apply range_NoDup|intros l Hl%range_spec; lia].
  split; [|lia]. rewrite Hother; [apply lookup_singleton_eq|].
  intros H0%range_spec. lia.
Qed.

Lemma category_levels_length fuel counts levels cats S w cats' S' w' :
  category_levels fuel counts levels (cats, S) w = Ok (cats', S') w' ->
  (length cats <= length cats' <= length cats + total_levels counts levels)%nat.
Proof.
  revert cats S w. induction levels as [|level levels IH];
    intros cats S w H; simpl in H.
  - apply ret_Ok in H as [[= <- <-] _]. simpl. lia.
  - destruct (parent_ids_at level cats) as [|p0 ps].
    + apply ret_Ok in H as [[= <- <-] _]. lia.
    + apply bind_Ok in H as ([l S1] & w1 & Hl & H).
      apply comprehension_length in Hl. apply IH in H.
      rewrite length_app in H. simpl. lia.
Qed.

Lemma generate_categories_length fuel cfg w cats w' :
  0 <= n_roots cfg <= n_categories cfg ->
  generate_categories fuel cfg w = Ok cats w' ->
  Z.of_nat (length cats) = n_categories cfg.
Proof.
  intros Hcfg H. unfold generate_categories in H.
  apply bind_Ok in H as (counts & w1 & Hcounts & H).
  apply bind_Ok in H as ([roots S1] & w2 & Hroots & H).
  apply bind_Ok in H as ([cats2 S2] & w3 & Hlevels & H).
  apply (level_counts_of_spec _ _ _ _ Hcfg) in Hcounts as [H0 Htotal].
  apply comprehension_length in Hroots. rewrite H0 in Hroots. simpl in Hroots.
  apply category_levels_length in Hlevels.
  destruct (Z.of_nat (length cats2) <? n_categories cfg) eqn:Hshort.
  - apply bind_Ok in H as ([extra S3] & w4 & Hextra & H).
    apply ret_Ok in H as [<- _]. apply comprehension_length in Hextra.
    rewrite length_app. lia.
  - apply ret_Ok in H as [<- _]. lia.
Qed.

End Sizes.

Section SlugLoop.
Context {src : Source}.

Lemma length_append (s1 s2 : string) :
  String.length (s1 +:+ s2) = (String.length s1 + String.length s2)%nat.
Proof. induction s1 as [|c s1 IH]; simpl; [done|]. by rewrite IH. Qed.

(** A finite set of strings has a longest element. *)
Lemma gset_length_bound (S : gset string) :
  exists B, forall s, s ∈ S -> (String.length s <= B)%nat.
Proof.
  induction S as [|x S Hx [B HB]] using set_ind_L.
  - exists 0%nat. intros s Hs. set_solver.
  - exists (Nat.max (String.length x) B). intros s [->%elem_of_singleton|Hs]%elem_of_union.
    + lia.
    + specialize (HB s Hs). lia.
Qed.

Lemma next_slug_longer s w s' w' :
  next_slug s w = Ok s' w' -> (String.length s < String.length s')%nat.
Proof.
  unfold next_slug. intros H. inv_run H. subst.
  rewrite !length_append. simpl. lia.
Qed.

Global Instance returns_next_slug s : Returns (next_slug s).
Proof. unfold next_slug. apply _. Qed.

(** The slug loop ends: every turn makes the candidate longer, and the
    registry has a longest slug. *)
Lemma slug_loop_returns (S : gset string) B fuel s w :
  (forall x, x ∈ S -> (String.length x <= B)%nat) ->
  (B < String.length s + fuel)%nat ->
  exists s' w',
    while fuel (fun slug => bool_decide (slug ∈ S)) next_slug s w = Ok s' w'.
Proof.
  intros HB. revert s w. induction fuel as [|fuel IH]; intros s w Hlen; simpl.
  - case_bool_decide as Hin; [|by exists s, w].
    specialize (HB s Hin). lia.
  - case_bool_decide as Hin; [|by exists s, w].
    destruct (returns (m:=next_slug s) w) as (s1 & w1 & H1).
    pose proof (next_slug_longer _ _ _ _ H1) as Hlonger.
    destruct (IH s1 w1) as (s' & w' & H'); [lia|].
    exists s', w'. apply bind_Ok. eauto.
Qed.

End SlugLoop.

Section Raising.
Context {src : Source}.

Global Instance no_raise_returns {A} (m : M A) : Returns m -> NoRaise m | 10.
Proof. intros Hm w e. destruct (Hm w) as (a & w' & ->). discriminate. Qed.

Global Instance no_raise_spin {A} : NoRaise (@spin A).
Proof. intros w e. discriminate. Qed.

Global Instance no_raise_bind {A B} (m : M A) (k : A -> M B) :
  NoRaise m -> (forall a, NoRaise (k a)) -> NoRaise (bind m k) | 5.
Proof.
  intros Hm Hk w e [H|(a & w1 & _ & H)]%bind_Raise; [by apply Hm in H|].
  by apply Hk in H.
Qed.

Global Instance no_raise_if {A} (b : bool) (m1 m2 : M A) :
  NoRaise m1 -> NoRaise m2 -> NoRaise (if b then m1 else m2) | 5.
Proof. by destruct b. Qed.

Global Instance no_raise_while {S} fuel cond (body : S -> M S) s :
  (forall s, NoRaise (body s)) -> NoRaise (while fuel cond body s).
Proof.
  intros Hb. revert s. induction fuel as [|fuel IH]; intros s; simpl;
    destruct (cond s); apply _.
Qed.

Lemma returns_sample {A} (xs : list A) k :
  (k <= length xs)%nat -> Returns (sample xs k).
Proof.
  revert xs. induction k as [|k IH]; intros xs Hk; simpl; [apply _|].
  destruct xs as [|x xs]; [simpl in Hk; lia|].
  apply returns_bind; [apply _|]. intros d.
  apply returns_bind; [|apply _]. apply IH.
  rewrite length_delete; [simpl in *; lia|].
  apply lookup_lt_is_Some_2.
  pose proof (N.mod_upper_bound d (N.of_nat (length (x :: xs)))).
  simpl in *. lia.
Qed.

Global Instance returns_for_each {A B} (f : A -> M B) xs :
  (forall x, Returns (f x)) -> Returns (for_each f xs).
Proof. intros Hf. induction xs; simpl; apply _. Qed.

Lemma returns_bind_at {A B} (m : M A) (k : A -> M B) w a w1 :
  m w = Ok a w1 -> (exists b w2, k a w1 = Ok b w2) ->
  exists b w2, bind m k w = Ok b w2.
Proof. intros Hm (b & w2 & Hk). exists b, w2. apply bind_Ok. eauto. Qed.

Lemma choice_Raise {A} (xs : list A) w e :
  choice xs w = Raise e -> xs = [] /\ e = IndexError.
Proof.
  destruct xs as [|x xs]; simpl; [by intros [= <-]|].
  intros H. by apply (no_raise (m:=choice (x :: xs))) in H.
Qed.

End Raising.

Global Hint Extern 1 (NoRaise (randint _ _)) =>
  apply no_raise_returns, returns_randint; lia : typeclass_instances.
Global Hint Extern 1 (Returns (sample _ (Nat.min _ (length _)))) =>
  apply returns_sample; lia : typeclass_instances.
Global Hint Extern 1 (NoRaise (sample _ (Nat.min _ (length _)))) =>
  apply no_raise_returns, returns_sample; lia : typeclass_instances.

(** In [H : m w = Raise e], where [m] is a bind, the first step cannot
    raise: moves on to the rest. *)
Ltac step_raise H :=
  apply bind_Raise in H as [H|(? & ? & _ & H)];
  [exfalso; revert H; apply no_raise | cbv beta in H].

Section Extras1.
Context {src : Source}.

(** X4. Category slugs: the loop of [generate_category] always ends.  Given
    the registry there is a number of turns within which the generator
    returns, whatever is drawn. *)
Theorem generate_category_returns (S : gset string) parent_id level :
  exists turns_needed, forall fuel w,
    (turns_needed <= fuel)%nat ->
    exists c S' w',
      generate_category fuel S parent_id level w = Ok (c, S') w'.
Proof.
  destruct (gset_length_bound S) as [B HB]. exists (Datatypes.S B).
  intros fuel w Hfuel.
  enough (exists r w', generate_category fuel S parent_id level w = Ok r w')
    as ([c S'] & w' & H) by eauto.
  unfold generate_category.
  destruct (returns (m:=fake Word) w) as (x1 & w1 & H1).
  eapply returns_bind_at; [exact H1|]. cbv beta.
  destruct (returns (m:=fake Word) w1) as (x2 & w2 & H2).
  eapply returns_bind_at; [exact H2|]. cbv beta.
  match goal with
  | |- context [while fuel ?c next_slug ?s0] =>
      destruct (slug_loop_returns S B fuel s0 w2 HB) as (s' & w3 & Hloop);
        [lia|]
  end.
  eapply returns_bind_at; [exact Hloop|]. cbv beta. apply returns.
Qed.

(** X5. The generators of users, categories and products never raise: they
    return or are still redrawing. *)
Theorem generators_never_raise fuel (S : gset string) w e :
  generate_user fuel S w <> Raise e /\
  (forall parent_id level,
     generate_category fuel S parent_id level w <> Raise e) /\
  generate_product fuel S w <> Raise e.
Proof.
  split; [|split].
  - apply no_raise.
  - intros parent_id level. apply no_raise.
  - apply no_raise.
Qed.

End Extras1.

Section Extras2.
Context {src : Source}.

Global Instance no_raise_generate_order_item p :
  NoRaise (generate_order_item p).
Proof. apply _. Qed.

(** X6. An order needs a customer: with an empty customer list
    [generate_order] returns no order, and the only exception it ever
    raises is the [IndexError] of [random.choice] on that empty list. *)
Theorem generate_order_needs_customer fuel customer_ids products
    (S : gset string) w :
  (customer_ids = [] ->
   forall o S' w',
     generate_order fuel customer_ids products S w <> Ok (o, S') w') /\
  (forall e,
     generate_order fuel customer_ids products S w = Raise e ->
     e = IndexError /\ customer_ids = []).
Proof.
  split.
  - intros -> o S' w' (_ & _ & []%elem_of_nil)%generate_order_spec.
  - intros e H. unfold generate_order in H.
    do 11 (step_raise H).
    apply bind_Raise in H as [H|(? & ? & _ & H)].
    + by apply choice_Raise in H as [-> ->].
    + exfalso. revert H. apply no_raise.
Qed.

Lemma date_time_between_range years w t w' :
  date_time_between years w = Ok t w' ->
  now - years * 31556736 <= t <= now.
Proof. apply randint_range. Qed.

(** X7. The fields of a user: an age, when present, is from 13 to 80; the
    status is one of the three; there are at most five interests; a last
    login, when present, lies in the year before [now], and the two
    timestamps in the two years before [now], a year being Faker's 365.24
    days, 31556736 seconds. *)
Theorem generate_user_fields fuel S w u S' w' :
  generate_user fuel S w = Ok (u, S') w' ->
  (forall a, User.age (User.profile u) = Some a -> 13 <= a <= 80) /\
  (length (User.interests (User.profile u)) <= 5)%nat /\
  User.status u ∈ ["active"; "inactive"; "suspended"] /\
  (forall t, User.lastLogin u = Some t -> now - 31556736 <= t <= now) /\
  now - 2 * 31556736 <= User.createdAt u <= now /\
  now - 2 * 31556736 <= User.updatedAt u <= now.
Proof.
  unfold generate_user. intros H. inv_run H; injection H as <- <-; simpl;
    subst;
    repeat match goal with
      | Hr : randint _ _ _ = Ok _ _ |- _ => apply randint_range in Hr
      | Hr : date_time_between _ _ = Ok _ _ |- _ =>
          apply date_time_between_range in Hr
      | Hr : fake_words _ _ = Ok _ _ |- _ => apply fake_words_length in Hr
      | Hr : choice (_ :: _) _ = Ok _ _ |- _ => apply choice_In in Hr
      end;
    repeat split; try done; intros;
    repeat match goal with
      | Hs : Some _ = Some _ |- _ => injection Hs as <-
      | Hs : None = Some _ |- _ => discriminate Hs
      end;
    simpl; lia.
Qed.

(** X10. The dates of an order: [shippedDate] is present exactly for the
    statuses shipped and delivered, [deliveredDate] exactly for delivered;
    a shipped date is 1 to 5 days after the order date and a delivered date
    5 to 10 days after it, so never before the shipped date. *)
Theorem order_dates fuel customer_ids products S w o S' w' :
  generate_order fuel customer_ids products S w = Ok (o, S') w' ->
  (is_Some (Order.shippedDate o) <->
   Order.status o ∈ ["shipped"; "delivered"]) /\
  (is_Some (Order.deliveredDate o) <-> Order.status o = "delivered") /\
  (forall t, Order.shippedDate o = Some t ->
     Order.orderDate o + 86400 <= t <= Order.orderDate o + 5 * 86400) /\
  (forall t, Order.deliveredDate o = Some t ->
     Order.orderDate o + 5 * 86400 <= t <= Order.orderDate o + 10 * 86400) /\
  (forall s t, Order.shippedDate o = Some s ->
     Order.deliveredDate o = Some t -> Order.orderDate o < s <= t).
Proof.
  intros (_ & _ & _ & Hs & Hd)%generate_order_dates.
  destruct (bool_decide (Order.status o ∈ ["shipped"; "delivered"]))
    eqn:Hship;
    [apply bool_decide_eq_true in Hship|apply bool_decide_eq_false in Hship];
    (destruct (bool_decide (Order.status o = "delivered")) eqn:Hdel;
     [apply bool_decide_eq_true in Hdel|apply bool_decide_eq_false in Hdel]);
    [destruct Hs as (ds & Hds & Hs), Hd as (dd & Hdd & Hd)
    |destruct Hs as (ds & Hds & Hs)
    |exfalso; apply Hship; rewrite Hdel; set_solver
    |];
    rewrite Hs, Hd; unfold plus_days; repeat split; intros;
    repeat match goal with
      | Hx : Some _ = Some _ |- _ => injection Hx as <-
      | Hx : None = Some _ |- _ => discriminate Hx
      | Hx : is_Some None |- _ => apply is_Some_None in Hx; destruct Hx
      end;
    try done; try lia; eauto.
Qed.

(** X11. The review loop cannot end when there are fewer (product, user) pairs
    than reviews asked for: with both id lists non-empty it never raises
    either, so it runs for ever. *)
Theorem review_loop_never_ends_without_pairs fuel target user_ids product_ids
    order_products w :
  user_ids <> [] -> product_ids <> [] ->
  (length product_ids * length user_ids < target)%nat ->
  generate_product_reviews fuel target user_ids product_ids order_products w
    = Spin.
Proof.
  intros Hu Hp Hfew.
  destruct (generate_product_reviews fuel target user_ids product_ids
              order_products w) as [revs w'| e |] eqn:H; [| |done]; exfalso.
  - apply generate_product_reviews_ok in H
      as (Hlen & pairs & _ & Hnd & _ & Hin).
    assert (review_pair <$> revs ⊆+ list_prod product_ids user_ids) as Hsub.
    { apply NoDup_submseteq; [done|].
      intros k (r & -> & Hr)%list_elem_of_fmap.
      destruct (Hin r Hr) as (_ & Hrp & Hru & _).
      apply list_elem_of_In, in_prod; by apply list_elem_of_In. }
    apply submseteq_length in Hsub.
    rewrite length_fmap, length_prod in Hsub. lia.
  - assert (NoRaise (generate_product_reviews fuel target user_ids
                       product_ids order_products)) as Hnr;
      [|by apply Hnr in H].
    unfold generate_product_reviews.
    apply no_raise_bind; [|intros []; apply _].
    apply no_raise_while. intros [revs pairs]. unfold review_step.
    destruct user_ids as [|u0 us]; [done|].
    destruct product_ids as [|p0 ps]; [done|].
    apply no_raise_bind; [apply _|]. intros u.
    apply no_raise_bind; [apply _|]. intros p.
    apply no_raise_bind; [apply _|]. intros [[r|] pairs']; apply _.
Qed.

End Extras2.

Section RunExtras.
Context {src : Source}.

Lemma comprehension_Forall {A R} (Q : A -> Prop) (gen : R -> M (A * R))
    n reg w l reg' w' :
  (forall reg w a reg' w', gen reg w = Ok (a, reg') w' -> Q a) ->
  comprehension n gen reg w = Ok (l, reg') w' -> Forall Q l.
Proof.
  intros Hgen H.
  pose (P := fun (l : list A) (_ : R) (_ : world) => Forall Q l).
  change (P ([] ++ l) reg' w').
  eapply (comprehension_invariant P); [| |exact H].
  - subst P. simpl. intros l1 R1 w1 a R2 w2 Hl Ha%Hgen.
    apply Forall_app. split; [done|]. by constructor.
  - constructor.
Qed.

(** X12. The sizes of the collections of a run: as many users, products, orders
    and reviews as the script asks for, and, when the roots are no more
    than the categories asked for, exactly that many categories (the top-up
    fills what the levels leave). *)
Theorem run_sizes fuel cfg w d w' :
  0 <= n_roots cfg <= n_categories cfg ->
  run fuel cfg w = Ok d w' ->
  length (users d) = n_users cfg /\
  Z.of_nat (length (categories d)) = n_categories cfg /\
  length (products d) = n_products cfg /\
  length (orders d) = n_orders cfg /\
  length (product_reviews d) = n_reviews cfg.
Proof.
  intros Hcfg (S1 & w1 & w2 & S3 & w3 & w4 & S5 & w5 &
               Hu & Hc & Hp & _ & Ho & Hr)%run_stages.
  split; [by eapply comprehension_length|].
  split; [by eapply generate_categories_length|].
  split; [by eapply comprehension_length|].
  split; [by eapply comprehension_length|].
  by apply generate_product_reviews_ok in Hr as [Hr _].
Qed.

(** X13. Every record of a run has an [_id] of its own: no two records, of the
    same or of different collections, share one. *)
Theorem run_ids_distinct fuel cfg w d w' :
  run fuel cfg w = Ok d w' -> NoDup (all_ids d).
Proof.
  intros (S1 & w1 & w2 & S3 & w3 & w4 & S5 & w5 &
          Hu & Hc & Hp & Hl & Ho & Hr)%run_stages.
  apply (comprehension_window User._id) in Hu;
    [|intros; by eapply generate_user_oid].
  apply generate_categories_window in Hc.
  apply (comprehension_window Product._id) in Hp;
    [|intros; by eapply generate_product_oid].
  apply generate_product_categories_ok in Hl as (pairs & Hl & _).
  apply (comprehension_window Order._id) in Ho;
    [|intros; by eapply generate_order_oid].
  apply generate_product_reviews_ok in Hr as (_ & pairs' & Hr & _).
  unfold all_ids. rewrite !map_fmap.
  pose proof Hu as (Hu1 & Hu2 & Hu3). pose proof Hc as (Hc1 & Hc2 & Hc3).
  pose proof Hp as (Hp1 & Hp2 & Hp3). pose proof Hl as (Hl1 & Hl2 & Hl3).
  pose proof Ho as (Ho1 & Ho2 & Ho3). pose proof Hr as (Hr1 & Hr2 & Hr3).
  repeat (apply NoDup_app; split; [done|split]); try done;
    intros k (x & -> & Hx)%list_elem_of_fmap;
    rewrite ?elem_of_app, ?list_elem_of_fmap;
    intros Hk;
    repeat match goal with
      | Hk : _ \/ _ |- _ => destruct Hk as [Hk|Hk]
      | Hk : exists y, _ = _ /\ _ ∈ _ |- _ =>
          let y := fresh "y" in
          let E := fresh "E" in
          let Hy := fresh "Hy" in
          destruct Hk as (y & E & Hy)
      end;
    repeat match goal with
      | Hwin : forall x, x ∈ ?l -> _, Hx : _ ∈ ?l |- _ =>
          apply Hwin in Hx
      end;
    lia.
Qed.

(** X14. The references of a run's orders: the customer is a user of the run;
    every line item is made from a product of the run (its id, SKU, name
    and price, with a quantity from 1 to 5); no product occurs twice in an
    order; an order has at most five items, and at least one when there are
    products. *)
Theorem run_orders_reference fuel cfg w d w' :
  run fuel cfg w = Ok d w' ->
  forall o, o ∈ orders d ->
    Order.customerId o ∈ map User._id (users d) /\
    (forall it, it ∈ Order.items o ->
       exists p, p ∈ products d /\ item_of p it) /\
    NoDup (map Item.productId (Order.items o)) /\
    (length (Order.items o) <= 5)%nat /\
    (products d <> [] -> (1 <= length (Order.items o))%nat).
Proof.
  intros (S1 & w1 & w2 & S3 & w3 & w4 & S5 & w5 &
          _ & _ & Hp & _ & Ho & _)%run_stages o Hin.
  apply (comprehension_window Product._id) in Hp as [Hnd _];
    [|intros; by eapply generate_product_oid].
  eapply (comprehension_Forall
            (fun o => Order.customerId o ∈ map User._id (users d) /\
               exists selected n,
                 selected ⊆+ products d /\
                 Forall2 item_of selected (Order.items o) /\
                 1 <= n <= 5 /\
                 length (Order.items o)
                   = Nat.min (Z.to_nat n) (length (products d)))) in Ho.
  2:{ intros reg wa a reg' wb Hg. split.
      - by apply generate_order_spec in Hg as (_ & _ & Hg).
      - by eapply generate_order_items. }
  rewrite Forall_forall in Ho.
  destruct (Ho o Hin) as (Hcust & sel & n & Hsub & Hitems & Hn & Hlen).
  split; [done|]. split; [|split; [|split]].
  - intros it Hit.
    apply list_elem_of_lookup in Hit as [i Hi].
    destruct (Forall2_lookup_r _ _ _ _ _ Hitems Hi) as (p & Hp & Hof).
    exists p. split; [|done].
    eapply elem_of_submseteq; [|exact Hsub]. by eapply list_elem_of_lookup_2.
  - assert (map Item.productId (Order.items o) = map Product._id sel) as ->.
    { clear -Hitems. induction Hitems as [|p it ps its (Hid & _) _ IH];
        simpl; [done|]. by rewrite Hid, IH. }
    rewrite map_fmap. eapply submseteq_NoDup; [|exact Hnd].
    by apply fmap_submseteq.
  - lia.
  - intros Hne. destruct (products d); [done|]. simpl in *. lia.
Qed.

(** X15. The reviews of a run: no (product, user) pair is reviewed twice; the
    user and the product of every review are a user and a product of the
    run; the rating is from 1 to 5. *)
Theorem run_reviews_unique_pairs fuel cfg w d w' :
  run fuel cfg w = Ok d w' ->
  NoDup (map review_pair (product_reviews d)) /\
  forall r, r ∈ product_reviews d ->
    Review.userId r ∈ map User._id (users d) /\
    Review.productId r ∈ map Product._id (products d) /\
    1 <= Review.rating r <= 5.
Proof.
  intros (S1 & w1 & w2 & S3 & w3 & w4 & S5 & w5 &
          _ & _ & _ & _ & _ & Hr)%run_stages.
  apply generate_product_reviews_ok in Hr as (_ & pairs & _ & Hnd & _ & Hin).
  split; [done|]. intros r Hr. destruct (Hin r Hr) as (_ & ? & ? & ?). done.
Qed.

(** X16. The links of a run: no (product, category) pair is linked twice, and
    every link joins a product of the run to a category of the run. *)
Theorem run_links_unique_pairs fuel cfg w d w' :
  run fuel cfg w = Ok d w' ->
  NoDup (map link_pair (product_categories d)) /\
  forall pc, pc ∈ product_categories d ->
    ProductCategory.productId pc ∈ map Product._id (products d) /\
    ProductCategory.categoryId pc ∈ map Category._id (categories d).
Proof.
  intros (S1 & w1 & w2 & S3 & w3 & w4 & S5 & w5 &
          _ & _ & _ & Hl & _)%run_stages.
  apply generate_product_categories_ok in Hl as (pairs & _ & Hnd & Hin).
  split; [done|]. intros pc Hpc. destruct (Hin pc Hpc) as (_ & ? & ?). done.
Qed.

End RunExtras.

Section LinkCounts.
Context {src : Source}.

Lemma link_category_fresh (pid : ObjectId) (pcs : list ProductCategory.t)
    (pairs : gset (ObjectId * ObjectId)) flag cid w pcs' pairs' flag' w' :
  (pid, cid) ∉ pairs ->
  link_category pid (pcs, pairs, flag) cid w = Ok (pcs', pairs', flag') w' ->
  exists pc, pcs' = pcs ++ [pc] /\ ProductCategory.productId pc = pid /\
             pairs' = {[(pid, cid)]} ∪ pairs.
Proof.
  intros Hfresh H. unfold link_category in H.
  rewrite bool_decide_eq_true_2 in H by done.
  apply bind_Ok in H as (pc0 & w1 & Hgen & H).
  apply bind_Ok in H as (acc & w2 & Hacc & H).
  apply ret_Ok in H as [[= <- <- <-] <-].
  apply generate_product_category_spec in Hgen as (Hp & _).
  eexists. split; [done|]. split; [|done]. by destruct acc.
Qed.

Lemma link_fold (pid : ObjectId) (sel : list ObjectId) (pcs : list ProductCategory.t)
    (pairs : gset (ObjectId * ObjectId)) flag w
    pcs' pairs' flag' w' :
  NoDup sel -> (forall c, c ∈ sel -> (pid, c) ∉ pairs) ->
  for_fold (link_category pid) sel (pcs, pairs, flag) w
    = Ok (pcs', pairs', flag') w' ->
  exists new,
    pcs' = pcs ++ new /\ length new = length sel /\
    Forall (fun pc => ProductCategory.productId pc = pid) new /\
    (forall q, q ∈ pairs' -> q ∈ pairs \/ q.1 = pid).
Proof.
  revert pcs pairs flag w. induction sel as [|cid sel IH];
    intros pcs pairs flag w Hnd Hfresh H; simpl in H.
  - apply ret_Ok in H as [[= <- <- <-] _]. exists [].
    rewrite app_nil_r. repeat split; [constructor|auto].
  - apply NoDup_cons in Hnd as [Hcid Hnd].
    apply bind_Ok in H as ([[pcs1 pairs1] flag1] & w1 & Hstep & H).
    apply link_category_fresh in Hstep as (pc & -> & Hpc & ->);
      [|apply Hfresh; by left].
    apply IH in H as (new & -> & Hlen & Hall & Hpairs); [|done|].
    + exists (pc :: new). rewrite <- app_assoc. simpl.
      repeat split; [by rewrite Hlen|by constructor|].
      intros q [[->%elem_of_singleton|Hq]%elem_of_union|Hq]%Hpairs; auto.
    + intros c Hc [[= ->]%elem_of_singleton|Hin]%elem_of_union; [done|].
      revert Hin. apply Hfresh. by right.
Qed.

Lemma link_product_count (cids : list ObjectId) (pcs : list ProductCategory.t)
    (pairs : gset (ObjectId * ObjectId)) pid w
    pcs' pairs' w' :
  NoDup cids -> cids <> [] -> (forall q, q ∈ pairs -> q.1 <> pid) ->
  link_product cids (pcs, pairs) pid w = Ok (pcs', pairs') w' ->
  exists new,
    pcs' = pcs ++ new /\ (1 <= length new <= 3)%nat /\
    Forall (fun pc => ProductCategory.productId pc = pid) new /\
    (forall q, q ∈ pairs' -> q ∈ pairs \/ q.1 = pid).
Proof.
  intros Hnd Hne Hfresh H. unfold link_product in H.
  apply bind_Ok in H as (num & w1 & Hnum%randint_range & H).
  apply bind_Ok in H as (sel & w2 & [Hsub Hlen]%sample_spec & H).
  apply bind_Ok in H as ([[pcs2 pairs2] flag2] & w3 & Hfold & H).
  apply ret_Ok in H as [[= <- <-] <-].
  apply link_fold in Hfold as (new & -> & Hnew & Hall & Hpairs).
  - exists new. repeat split; try done; destruct cids; try done;
      simpl in *; lia.
  - by eapply submseteq_NoDup.
  - intros c _ Hin. by apply Hfresh in Hin.
Qed.

Lemma links_of_app pid l1 l2 :
  links_of pid (l1 ++ l2) = links_of pid l1 ++ links_of pid l2.
Proof. apply filter_app. Qed.

Lemma links_of_all pid l :
  Forall (fun pc => ProductCategory.productId pc = pid) l ->
  links_of pid l = l.
Proof.
  unfold links_of. induction 1 as [|pc l Hpc _ IH]; [done|].
  rewrite filter_cons_True by done. by rewrite IH.
Qed.

Lemma links_of_none pid l :
  Forall (fun pc => ProductCategory.productId pc <> pid) l ->
  links_of pid l = [].
Proof.
  unfold links_of. induction 1 as [|pc l Hpc _ IH]; [done|].
  by rewrite filter_cons_False.
Qed.

Lemma link_products_count (cids pids : list ObjectId) (pcs : list ProductCategory.t)
    (pairs : gset (ObjectId * ObjectId)) w
    pcs' pairs' w' :
  NoDup cids -> cids <> [] -> NoDup pids ->
  (forall q, q ∈ pairs -> q.1 ∉ pids) ->
  for_fold (link_product cids) pids (pcs, pairs) w = Ok (pcs', pairs') w' ->
  exists new,
    pcs' = pcs ++ new /\
    Forall (fun pc => ProductCategory.productId pc ∈ pids) new /\
    forall pid, pid ∈ pids -> (1 <= length (links_of pid new) <= 3)%nat.
Proof.
  intros Hcids Hne. revert pcs pairs w. induction pids as [|pid pids IH];
    intros pcs pairs w Hnd Hfresh H; simpl in H.
  - apply ret_Ok in H as [[= <- <-] _]. exists [].
    rewrite app_nil_r. split; [done|]. split; [constructor|].
    intros pid []%elem_of_nil.
  - apply NoDup_cons in Hnd as [Hpid Hnd].
    apply bind_Ok in H as ([pcs1 pairs1] & w1 & Hstep & H).
    apply link_product_count in Hstep
      as (new1 & -> & Hlen1 & Hall1 & Hpairs1); [|done|done|].
    2:{ intros q Hq E. apply (Hfresh q Hq). rewrite E. by left. }
    apply IH in H as (new2 & -> & Hall2 & Hcount2); [|done|].
    2:{ intros q [Hq|E]%Hpairs1; [|by rewrite E].
        intros Hin. apply (Hfresh q Hq). by right. }
    exists (new1 ++ new2). rewrite <- app_assoc. split; [done|]. split.
    + apply Forall_app. split.
      * eapply Forall_impl; [exact Hall1|]. intros pc ->. by left.
      * eapply Forall_impl; [exact Hall2|]. intros pc Hpc. by right.
    + assert (links_of pid new2 = []) as Hnone.
      { apply links_of_none. eapply Forall_impl; [exact Hall2|].
        intros pc Hpc E. simpl in Hpc. by rewrite E in Hpc. }
      intros p [->|Hp]%elem_of_cons; rewrite links_of_app.
      * rewrite (links_of_all pid new1 Hall1), Hnone, app_nil_r. lia.
      * rewrite (links_of_none p new1), app_nil_l; [by apply Hcount2|].
        eapply Forall_impl; [exact Hall1|]. intros pc -> ->. done.
Qed.

(** X17. Every product of a run is linked to at least one and at most three
    categories, provided the run has a category at all. *)
Theorem run_links_per_product fuel cfg w d w' :
  run fuel cfg w = Ok d w' -> categories d <> [] ->
  forall p, p ∈ products d ->
    (1 <= length (links_of (Product._id p) (product_categories d)) <= 3)%nat.
Proof.
  intros (S1 & w1 & w2 & S3 & w3 & w4 & S5 & w5 &
          _ & Hc & Hp & Hl & _)%run_stages Hne p Hin.
  apply generate_categories_window in Hc as [Hcids _].
  apply (comprehension_window Product._id) in Hp as [Hpids _];
    [|intros; by eapply generate_product_oid].
  unfold generate_product_categories in Hl.
  apply bind_Ok in Hl as ([pcs pairs] & w6 & Hfold & Hl).
  apply ret_Ok in Hl as [<- _]. rewrite !map_fmap in Hfold.
  apply link_products_count in Hfold as (new & -> & _ & Hcount);
    [|done|by destruct (categories d)|done|set_solver].
  simpl. apply Hcount. by apply list_elem_of_fmap_2.
Qed.

End LinkCounts.

Section MoreExtras.
Context {src : Source}.

Lemma index_items_exact c its m c' :
  default [] (fold_left (index_item c) its m !! c') =
  default [] (m !! c') ++
  (if decide (c = c') then map Item.productId its else []).
Proof.
  revert m. induction its as [|it its IH]; intros m; simpl.
  - destruct (decide (c = c')); by rewrite app_nil_r.
  - rewrite IH, index_item_lookup.
    destruct (decide (c = c')) as [<-|Hne]; [|done].
    by rewrite <- app_assoc.
Qed.

Lemma index_orders_exact os m c :
  default [] (fold_left index_order os m !! c) =
  default [] (m !! c) ++ purchases_of c os.
Proof.
  revert m. induction os as [|o os IH]; intros m; simpl.
  - by rewrite app_nil_r.
  - rewrite IH. unfold index_order. rewrite index_items_exact.
    by rewrite <- app_assoc.
Qed.

(** X18. The purchase index holds, for every customer, the product ids of all
    line items of that customer's orders, in generation order and with
    repeats; a customer has an entry exactly when one of their orders has
    an item. *)
Theorem index_orders_lists_purchases os c :
  default [] (index_orders os !! c) = purchases_of c os /\
  (is_Some (index_orders os !! c) <-> purchases_of c os <> []).
Proof.
  assert (default [] (index_orders os !! c) = purchases_of c os) as Hexact.
  { unfold index_orders. by rewrite index_orders_exact, lookup_empty. }
  split; [done|].
  assert (forall os' (m : gmap ObjectId (list ObjectId)),
             (forall k l, m !! k = Some l -> l <> []) ->
             forall k l, fold_left index_order os' m !! k = Some l -> l <> [])
    as Hne.
  { clear. induction os' as [|o os' IH]; intros m Hm; simpl; [done|].
    apply IH. unfold index_order. generalize (Order.items o) as its.
    intros its. revert m Hm. induction its as [|it its IHi]; intros m Hm;
      simpl; [done|].
    apply IHi. intros k l. unfold index_item.
    destruct (decide (Order.customerId o = k)) as [<-|Hk].
    - rewrite lookup_alter_eq. case_bool_decide as Hdom.
      + apply elem_of_dom in Hdom as [l0 ->]. intros [= <-].
        by destruct l0.
      + rewrite lookup_insert_eq. by intros [= <-].
    - rewrite lookup_alter_ne by done. case_bool_decide as Hdom; [apply Hm|].
      rewrite lookup_insert_ne by done. apply Hm. }
  rewrite <- Hexact. split.
  - intros [l Hl]. rewrite Hl. simpl. eapply (Hne os ∅); [|exact Hl].
    intros k l0. by rewrite lookup_empty.
  - destruct (index_orders os !! c); [eauto|done].
Qed.



(** X9. The integer fields of a product: the inventory quantity is from 0 to
    1000, reserved from 0 to 50, the low-stock threshold from 5 to 20, the
    rating count from 0 to 100; there are 1 to 5 images and at most 10
    tags; status and currency are of their enumerations. *)
Theorem generate_product_fields fuel S w p S' w' :
  generate_product fuel S w = Ok (p, S') w' ->
  0 <= Product.quantity (Product.inventory p) <= 1000 /\
  0 <= Product.reserved (Product.inventory p) <= 50 /\
  5 <= Product.lowStockThreshold (Product.inventory p) <= 20 /\
  0 <= Product.count (Product.ratings p) <= 100 /\
  (1 <= length (Product.images p) <= 5)%nat /\
  (length (Product.tags p) <= 10)%nat /\
  Product.status p ∈ ["active"; "inactive"; "discontinued"; "draft"] /\
  Product.currency p ∈ ["USD"; "VND"; "EUR"; "GBP"].
Proof.
  unfold generate_product. intros H. inv_run H; injection H as <- <-; simpl;
    subst;
    repeat match goal with
      | Hr : randint _ _ _ = Ok _ _ |- _ => apply randint_range in Hr
      | Hr : fake_words _ _ = Ok _ _ |- _ => apply fake_words_length in Hr
      | Hr : fake_images _ _ = Ok _ _ |- _ => apply fake_images_length in Hr
      | Hr : choice (_ :: _) _ = Ok _ _ |- _ => apply choice_In in Hr
      end;
    repeat split; try done; lia.
Qed.

End MoreExtras.

(* ===================================================================== *)
(** ** The further properties on concrete inputs *)
(* ===================================================================== *)

Lemma create_slug_keeps_length_witness :
  String.length (create_slug "Hello World") = String.length "Hello World".
Proof.
  apply (create_slug_keeps_length "Hello World").
  repeat constructor.
Defined.

Lemma generate_user_fields_witness :
  exists u S' w',
    @generate_user Demo.counting 0 ∅ Demo.start = Ok (u, S') w' /\
    (forall a, User.age (User.profile u) = Some a -> 13 <= a <= 80) /\
    (length (User.interests (User.profile u)) <= 5)%nat /\
    User.status u ∈ ["active"; "inactive"; "suspended"] /\
    (forall t, User.lastLogin u = Some t ->
       @now Demo.counting - 31556736 <= t <= @now Demo.counting) /\
    @now Demo.counting - 2 * 31556736 <= User.createdAt u
      <= @now Demo.counting /\
    @now Demo.counting - 2 * 31556736 <= User.updatedAt u
      <= @now Demo.counting.
Proof.
  assert (is_ok (@generate_user Demo.counting 0 ∅ Demo.start) = true)
    as ([u S'] & w' & E)%is_ok_Ok by (vm_compute; reflexivity).
  exists u, S', w'. split; [exact E|].
  exact (generate_user_fields _ _ _ _ _ _ E).
Defined.


Lemma generate_product_fields_witness :
  exists p S' w',
    @generate_product Demo.counting 0 ∅ Demo.start = Ok (p, S') w' /\
    0 <= Product.quantity (Product.inventory p) <= 1000 /\
    0 <= Product.reserved (Product.inventory p) <= 50 /\
    5 <= Product.lowStockThreshold (Product.inventory p) <= 20 /\
    0 <= Product.count (Product.ratings p) <= 100 /\
    (1 <= length (Product.images p) <= 5)%nat /\
    (length (Product.tags p) <= 10)%nat /\
    Product.status p ∈ ["active"; "inactive"; "discontinued"; "draft"] /\
    Product.currency p ∈ ["USD"; "VND"; "EUR"; "GBP"].
Proof.
  assert (is_ok (@generate_product Demo.counting 0 ∅ Demo.start) = true)
    as ([p S'] & w' & E)%is_ok_Ok by (vm_compute; reflexivity).
  exists p, S', w'. split; [exact E|].
  exact (generate_product_fields _ _ _ _ _ _ E).
Defined.

Lemma order_dates_witness :
  exists o S' w',
    @generate_order Demo.counting 0 [5%N] [Demo.widget] ∅ Demo.start
      = Ok (o, S') w' /\
    (is_Some (Order.shippedDate o) <->
     Order.status o ∈ ["shipped"; "delivered"]) /\
    (is_Some (Order.deliveredDate o) <-> Order.status o = "delivered") /\
    (forall t, Order.shippedDate o = Some t ->
       Order.orderDate o + 86400 <= t <= Order.orderDate o + 5 * 86400) /\
    (forall t, Order.deliveredDate o = Some t ->
       Order.orderDate o + 5 * 86400 <= t <= Order.orderDate o + 10 * 86400) /\
    (forall s t, Order.shippedDate o = Some s ->
       Order.deliveredDate o = Some t -> Order.orderDate o < s <= t).
Proof.
  assert (is_ok (@generate_order Demo.counting 0 [5%N] [Demo.widget] ∅
                   Demo.start) = true) as ([o S'] & w' & E)%is_ok_Ok
    by (vm_compute; reflexivity).
  exists o, S', w'. split; [exact E|].
  exact (order_dates _ _ _ _ _ _ _ _ E).
Defined.

Lemma review_loop_never_ends_without_pairs_witness :
  @generate_product_reviews Demo.stuck 5 2 [1%N] [2%N] ∅ Demo.start = Spin.
Proof.
  apply (@review_loop_never_ends_without_pairs Demo.stuck 5 2 [1%N] [2%N] ∅
           Demo.start); [discriminate|discriminate|simpl; lia].
Defined.

Lemma run_sizes_witness :
  exists d w',
    @run Demo.counting 3 Demo.tiny Demo.start = Ok d w' /\
    length (users d) = 2%nat /\ Z.of_nat (length (categories d)) = 4 /\
    length (products d) = 2%nat /\ length (orders d) = 2%nat /\
    length (product_reviews d) = 2%nat.
Proof.
  assert (is_ok (@run Demo.counting 3 Demo.tiny Demo.start) = true)
    as (d & w' & E)%is_ok_Ok by (vm_compute; reflexivity).
  exists d, w'. split; [exact E|].
  apply (@run_sizes Demo.counting 3 Demo.tiny Demo.start d w');
    [simpl; lia|exact E].
Defined.

Lemma run_ids_distinct_witness :
  exists d w',
    @run Demo.counting 3 Demo.tiny Demo.start = Ok d w' /\ NoDup (all_ids d).
Proof.
  assert (is_ok (@run Demo.counting 3 Demo.tiny Demo.start) = true)
    as (d & w' & E)%is_ok_Ok by (vm_compute; reflexivity).
  exists d, w'. split; [exact E|]. exact (run_ids_distinct _ _ _ _ _ E).
Defined.

Lemma run_orders_reference_witness :
  exists d w' o,
    @run Demo.counting 3 Demo.tiny Demo.start = Ok d w' /\ o ∈ orders d /\
    Order.customerId o ∈ map User._id (users d) /\
    (forall it, it ∈ Order.items o ->
       exists p, p ∈ products d /\ item_of p it) /\
    NoDup (map Item.productId (Order.items o)) /\
    (length (Order.items o) <= 5)%nat /\
    (products d <> [] -> (1 <= length (Order.items o))%nat).
Proof.
  eassert (returned (@run Demo.counting 3 Demo.tiny Demo.start)
             ≫= (fun d => head (orders d)) = Some _) as Hhead
    by (vm_compute; reflexivity).
  assert (is_ok (@run Demo.counting 3 Demo.tiny Demo.start) = true)
    as (d & w' & E)%is_ok_Ok by (vm_compute; reflexivity).
  rewrite E in Hhead. simpl in Hhead. apply head_elem_of in Hhead.
  eexists d, w', _. split; [exact E|]. split; [exact Hhead|].
  exact (run_orders_reference _ _ _ _ _ E _ Hhead).
Defined.

Lemma run_reviews_unique_pairs_witness :
  exists d w',
    @run Demo.counting 3 Demo.tiny Demo.start = Ok d w' /\
    NoDup (map review_pair (product_reviews d)) /\
    forall r, r ∈ product_reviews d ->
      Review.userId r ∈ map User._id (users d) /\
      Review.productId r ∈ map Product._id (products d) /\
      1 <= Review.rating r <= 5.
Proof.
  assert (is_ok (@run Demo.counting 3 Demo.tiny Demo.start) = true)
    as (d & w' & E)%is_ok_Ok by (vm_compute; reflexivity).
  exists d, w'. split; [exact E|].
  exact (run_reviews_unique_pairs _ _ _ _ _ E).
Defined.

Lemma run_links_unique_pairs_witness :
  exists d w',
    @run Demo.counting 3 Demo.tiny Demo.start = Ok d w' /\
    NoDup (map link_pair (product_categories d)) /\
    forall pc, pc ∈ product_categories d ->
      ProductCategory.productId pc ∈ map Product._id (products d) /\
      ProductCategory.categoryId pc ∈ map Category._id (categories d).
Proof.
  assert (is_ok (@run Demo.counting 3 Demo.tiny Demo.start) = true)
    as (d & w' & E)%is_ok_Ok by (vm_compute; reflexivity).
  exists d, w'. split; [exact E|].
  exact (run_links_unique_pairs _ _ _ _ _ E).
Defined.

Lemma run_links_per_product_witness :
  exists d w' p,
    @run Demo.counting 3 Demo.tiny Demo.start = Ok d w' /\
    categories d <> [] /\ p ∈ products d /\
    (1 <= length (links_of (Product._id p) (product_categories d)) <= 3)%nat.
Proof.
  eassert (returned (@run Demo.counting 3 Demo.tiny Demo.start)
             ≫= (fun d => head (products d)) = Some _) as Hp
    by (vm_compute; reflexivity).
  eassert (returned (@run Demo.counting 3 Demo.tiny Demo.start)
             ≫= (fun d => head (categories d)) = Some _) as Hc
    by (vm_compute; reflexivity).
  assert (is_ok (@run Demo.counting 3 Demo.tiny Demo.start) = true)
    as (d & w' & E)%is_ok_Ok by (vm_compute; reflexivity).
  rewrite E in Hp, Hc. simpl in Hp, Hc.
  apply head_elem_of in Hp. apply head_elem_of in Hc.
  assert (categories d <> []) as Hne.
  { intros Hnil. rewrite Hnil in Hc. by apply elem_of_nil in Hc. }
  eexists d, w', _. split; [exact E|]. split; [exact Hne|].
  split; [exact Hp|].
  exact (run_links_per_product _ _ _ _ _ E Hne _ Hp).
Defined.
